(** * ai-mermaid: the diagram synchronisation engine

    A shallow embedding of the parts of [src/App.tsx] (the [App] and
    [MermaidEditor] components) and [src/components/ExcalidrawWrapper.tsx]
    that the specification's testable properties talk about, followed by the
    theorems that settle them.

    Conventions.
    - A JavaScript string is the list of its UTF-16 code units.
    - A React state hook is a field of a state record; an event handler is a
      function from the state (and the values its closure captured) to the
      next state.
    - An [await] splits a handler in two: what runs before it, and what runs
      when the awaited promise settles.  How the promise settled (the SVG
      that [mermaid.render] produced, the text the generation service sent,
      what [JSON.parse] returned) is an argument of the second half.
    - JavaScript numbers are binary64 floats: the primitive floats, with
      the specification of their operations ([SpecFloat], [FloatAxioms]).
    - A call that may throw (a write to local storage, a property read, a
      conversion to a number) has its outcome in the model: as an argument
      where the environment decides it, as [None] where the value does. *)

From Stdlib Require Import String Ascii Decimal DecimalString DecimalN.
From Stdlib Require Import List NArith ZArith PArith Bool Lia.
From Stdlib Require Import Floats.
Import ListNotations.

Local Open Scope string_scope.
Local Open Scope list_scope.
Local Open Scope N_scope.

(* ================================================================== *)
(** * JavaScript strings *)
(* ================================================================== *)

Definition jsstring : Type := list N.

(** The string literal [s] (ASCII text of the source) as code units. *)
Definition js (s : string) : jsstring :=
  map N_of_ascii (list_ascii_of_string s).

(** The line feed ["\n"]. *)
Definition LF : N := 10.

(** [a === b] on strings. *)
Fixpoint str_eqb (a b : jsstring) : bool :=
  match a, b with
  | [], [] => true
  | x :: a', y :: b' => (x =? y) && str_eqb a' b'
  | _, _ => false
  end.

(** WhiteSpace and LineTerminator of ECMAScript: what [String.prototype.trim]
    strips and what the class escape [\s] matches. *)
Definition isWhiteSpace (c : N) : bool :=
  (c =? 0x9) || (c =? 0xA) || (c =? 0xB) || (c =? 0xC) || (c =? 0xD) ||
  (c =? 0x20) || (c =? 0xA0) || (c =? 0x1680) ||
  ((0x2000 <=? c) && (c <=? 0x200A)) ||
  (c =? 0x2028) || (c =? 0x2029) || (c =? 0x202F) || (c =? 0x205F) ||
  (c =? 0x3000) || (c =? 0xFEFF).

Fixpoint dropWhile (p : N -> bool) (s : jsstring) : jsstring :=
  match s with
  | [] => []
  | c :: t => if p c then dropWhile p t else s
  end.

(** [s.trim()] *)
Definition trim (s : jsstring) : jsstring :=
  rev (dropWhile isWhiteSpace (rev (dropWhile isWhiteSpace s))).

(** [s.startsWith(p)], and the rest of [s] after the prefix [p]. *)
Fixpoint stripPrefix (p s : jsstring) : option jsstring :=
  match p, s with
  | [], _ => Some s
  | x :: p', y :: s' => if x =? y then stripPrefix p' s' else None
  | _ :: _, [] => None
  end.

(** [s.includes(p)] *)
Fixpoint includes (s p : jsstring) : bool :=
  match stripPrefix p s with
  | Some _ => true
  | None => match s with
            | [] => false
            | _ :: t => includes t p
            end
  end.

(** [s.slice(0, n)] for a non-negative [n]. *)
Definition slice0 (n : nat) (s : jsstring) : jsstring := firstn n s.

(** [n.toString()] for a non-negative integer (a [Date.now()] reading). *)
Definition N_toString (n : N) : jsstring :=
  js (NilEmpty.string_of_uint (N.to_uint n)).

(** [s.split("\n")] *)
Fixpoint splitLines_aux (cur : jsstring) (s : jsstring) : list jsstring :=
  match s with
  | [] => [rev cur]
  | c :: t => if c =? LF then rev cur :: splitLines_aux [] t
              else splitLines_aux (c :: cur) t
  end.

Definition splitLines (s : jsstring) : list jsstring := splitLines_aux [] s.

(** A promise that has settled. *)
Inductive settled (A E : Type) : Type :=
| Fulfilled (a : A)
| Rejected (e : E).
Arguments Fulfilled {A E} a.
Arguments Rejected {A E} e.

(* ================================================================== *)
(** * Regular expressions

    The fragment of ECMAScript regular expressions that the editor's
    patterns are written in, with the backtracking matcher of the language
    specification: alternatives are tried left to right, quantifiers are
    greedy and give characters back one at a time, and the first way to
    match the whole pattern wins.  No pattern of the source carries the
    [i], [u] or [y] flag, so matching is by code unit. *)
(* ================================================================== *)

Module RegExp.

Inductive regex : Type :=
| Lit (s : jsstring)            (* literal characters *)
| Class (p : N -> bool)         (* one character of a class: \s, [A-Z] *)
| Star (p : N -> bool)          (* [class]*, greedy *)
| Seq (r1 r2 : regex)           (* r1 r2 *)
| Alt (r1 r2 : regex)           (* r1|r2 *)
| Group (n : nat) (r : regex)   (* the n-th capturing group (r) *)
| Bol.                          (* ^ *)

(** [class]+ *)
Definition Plus (p : N -> bool) : regex := Seq (Class p) (Star p).

(** r1|r2|...|rn *)
Fixpoint alts (r : regex) (rs : list regex) : regex :=
  match rs with
  | [] => r
  | r' :: rs' => Alt r (alts r' rs')
  end.

(** The number of capturing groups of a pattern. *)
Fixpoint ngroups (r : regex) : nat :=
  match r with
  | Seq r1 r2 | Alt r1 r2 => (ngroups r1 + ngroups r2)%nat
  | Group _ r' => S (ngroups r')
  | _ => 0%nat
  end.

(** A position in the input: the text before it (last character first), the
    text from it on, the number of characters between the start of the match
    and it, and the captures made so far. *)
Record mstate : Type := MState {
  consumed : jsstring;
  rest : jsstring;
  index : nat;
  captures : list (nat * jsstring)
}.

Definition isLineTerminator (c : N) : bool :=
  (c =? 0xA) || (c =? 0xD) || (c =? 0x2028) || (c =? 0x2029).

(** [^]: the start of the input, and with the [m] flag also the position
    after a line terminator. *)
Definition atLineStart (multiline : bool) (s : mstate) : bool :=
  match consumed s with
  | [] => true
  | c :: _ => multiline && isLineTerminator c
  end.

(** Greedy [class]*: take one more character if the class allows it and the
    rest of the pattern then matches; otherwise stop here. *)
Fixpoint star (p : N -> bool) (k : mstate -> option mstate)
  (before after : jsstring) (i : nat) (caps : list (nat * jsstring))
  : option mstate :=
  match after with
  | c :: t =>
      if p c then
        match star p k (c :: before) t (S i) caps with
        | Some r => Some r
        | None => k (MState before after i caps)
        end
      else k (MState before after i caps)
  | [] => k (MState before after i caps)
  end.

(** The matcher, in continuation-passing style: [m ml r k s] matches [r] at
    [s] and hands the position after it to [k] (the rest of the pattern);
    when [k] fails the next way of matching [r] is tried. *)
Fixpoint m (multiline : bool) (r : regex) (k : mstate -> option mstate)
  (s : mstate) : option mstate :=
  match r with
  | Lit l =>
      match stripPrefix l (rest s) with
      | Some t => k (MState (rev l ++ consumed s) t
                            (length l + index s) (captures s))
      | None => None
      end
  | Class p =>
      match rest s with
      | c :: t => if p c then k (MState (c :: consumed s) t (S (index s))
                                        (captures s))
                  else None
      | [] => None
      end
  | Star p => star p k (consumed s) (rest s) (index s) (captures s)
  | Seq r1 r2 => m multiline r1 (m multiline r2 k) s
  | Alt r1 r2 =>
      match m multiline r1 k s with
      | Some x => Some x
      | None => m multiline r2 k s
      end
  | Group n r' =>
      m multiline r'
        (fun s' =>
           let text := firstn (index s' - index s) (rest s) in
           k (MState (consumed s') (rest s') (index s')
                     ((n, text) :: captures s')))
        s
  | Bol => if atLineStart multiline s then k s else None
  end.

(** One successful match: where it starts, what it matched, what follows,
    and its captures. *)
Record found : Type := Found {
  prefix : jsstring;        (* the input before the match *)
  matched : jsstring;
  suffix : jsstring;        (* the input after the match *)
  groups : list (nat * jsstring)
}.

Definition matchAt (multiline : bool) (r : regex) (before after : jsstring)
  : option found :=
  match m multiline r Some (MState before after 0 []) with
  | Some s' =>
      Some (Found (rev before) (firstn (index s') after) (rest s')
                  (captures s'))
  | None => None
  end.

(** [RegExp.prototype.exec] from the start of the input: the leftmost
    position at which the pattern matches. *)
Fixpoint search (multiline : bool) (r : regex) (before after : jsstring)
  : option found :=
  match matchAt multiline r before after with
  | Some f => Some f
  | None =>
      match after with
      | [] => None
      | c :: t => search multiline r (c :: before) t
      end
  end.

Definition exec (multiline : bool) (r : regex) (s : jsstring) : option found :=
  search multiline r [] s.

(** The text of capture [n]; a group that did not take part is [undefined],
    which substitutes as the empty string. *)
Fixpoint capture (n : nat) (caps : list (nat * jsstring)) : jsstring :=
  match caps with
  | [] => []
  | (i, t) :: caps' => if Nat.eqb i n then t else capture n caps'
  end.

Definition isDigit (c : N) : bool := (48 <=? c) && (c <=? 57).
Definition digit (c : N) : nat := N.to_nat (c - 48).

(** GetSubstitution: expand a replacement template.  [$$] is a dollar sign,
    [$&] the match, [$`] and [$'] the text before and after it, [$n] and
    [$nn] capture [n] when the pattern has that many groups; any other [$]
    stands for itself. *)
Fixpoint expand (ng : nat) (f : found) (template : jsstring) : jsstring :=
  match template with
  | [] => []
  | 36 :: t =>
      match t with
      | 36 :: t' => 36 :: expand ng f t'
      | 38 :: t' => matched f ++ expand ng f t'
      | 96 :: t' => prefix f ++ expand ng f t'
      | 39 :: t' => suffix f ++ expand ng f t'
      | d1 :: t' =>
          if isDigit d1 then
            match t' with
            | d2 :: t'' =>
                if isDigit d2 then
                  let two := (10 * digit d1 + digit d2)%nat in
                  if (Nat.leb 1 two && Nat.leb two ng)%bool then
                    capture two (groups f) ++ expand ng f t''
                  else if (Nat.leb two ng)%bool then
                    (* $00 *)
                    36 :: d1 :: d2 :: expand ng f t''
                  else if (Nat.leb 1 (digit d1) && Nat.leb (digit d1) ng)%bool then
                    capture (digit d1) (groups f) ++ expand ng f t'
                  else 36 :: d1 :: expand ng f t'
                else if (Nat.leb 1 (digit d1) && Nat.leb (digit d1) ng)%bool then
                  capture (digit d1) (groups f) ++ expand ng f t'
                else 36 :: d1 :: expand ng f t'
            | [] =>
                if (Nat.leb 1 (digit d1) && Nat.leb (digit d1) ng)%bool then
                  capture (digit d1) (groups f)
                else [36; d1]
            end
          else 36 :: expand ng f t
      | [] => [36]
      end
  | c :: t => c :: expand ng f t
  end.

(** [s.replace(re, template)] for a pattern without the [g] flag: the first
    match is replaced. *)
Definition replaceFirst (multiline : bool) (r : regex) (template s : jsstring)
  : jsstring :=
  match exec multiline r s with
  | Some f => prefix f ++ expand (ngroups r) f template ++ suffix f
  | None => s
  end.

(** [s.replace(re, template)] for a pattern with the [g] flag: every match
    is replaced, each search resuming where the previous match ended (one
    character further after an empty match).  [skip] counts the characters
    of the current match that are still to be passed over. *)
Fixpoint replaceFrom (multiline : bool) (r : regex) (template : jsstring)
  (before after : jsstring) (skip : nat) : jsstring :=
  match skip with
  | S n =>
      match after with
      | c :: t => replaceFrom multiline r template (c :: before) t n
      | [] => []
      end
  | O =>
      match matchAt multiline r before after with
      | Some f =>
          expand (ngroups r) f template ++
          match after with
          | [] => []
          | c :: t =>
              match length (matched f) with
              | O => c :: replaceFrom multiline r template (c :: before) t 0
              | S n => replaceFrom multiline r template (c :: before) t n
              end
          end
      | None =>
          match after with
          | [] => []
          | c :: t => c :: replaceFrom multiline r template (c :: before) t 0
          end
      end
  end.

Definition replaceAll (multiline : bool) (r : regex) (template s : jsstring)
  : jsstring :=
  replaceFrom multiline r template [] s 0.

End RegExp.

Import RegExp.

(* ================================================================== *)
(** * The MermaidEditor component ([src/App.tsx])

    [code] and [onChange] are the component's props: [code] is the parent's
    [diagramState.mermaidCode], and calling [onChange] makes the parent
    store a new source text, which comes back as the [code] prop.  The other
    fields are the component's state hooks.  [inflight] lists the source
    texts of the [mermaid.render] calls that have been started and have not
    settled yet, oldest first: a call in flight is never cancelled.  The
    geometry of the edit overlay plays no part in what follows and is left
    out of [EditingNode]. *)
(* ================================================================== *)

Module EditingNode.
Record t : Type := Make {
  id : jsstring;
  text : jsstring
}.
End EditingNode.

Inductive Orientation : Type := TD | LR.

Record EditorState : Type := Editor {
  code : jsstring;
  onChange : bool;
  svgContent : jsstring;
  error : option jsstring;
  inflight : list jsstring;
  panMode : bool;
  editingNode : option EditingNode.t;
  orientation : Orientation
}.

Definition setSvgContent (v : jsstring) (st : EditorState) : EditorState :=
  Editor (code st) (onChange st) v (error st) (inflight st) (panMode st)
         (editingNode st) (orientation st).

Definition setError (v : option jsstring) (st : EditorState) : EditorState :=
  Editor (code st) (onChange st) (svgContent st) v (inflight st) (panMode st)
         (editingNode st) (orientation st).

Definition setInflight (v : list jsstring) (st : EditorState) : EditorState :=
  Editor (code st) (onChange st) (svgContent st) (error st) v (panMode st)
         (editingNode st) (orientation st).

Definition setEditingNode (v : option EditingNode.t) (st : EditorState)
  : EditorState :=
  Editor (code st) (onChange st) (svgContent st) (error st) (inflight st)
         (panMode st) v (orientation st).

Definition setOrientation (v : Orientation) (st : EditorState) : EditorState :=
  Editor (code st) (onChange st) (svgContent st) (error st) (inflight st)
         (panMode st) (editingNode st) v.

Definition setCode (v : jsstring) (st : EditorState) : EditorState :=
  Editor v (onChange st) (svgContent st) (error st) (inflight st)
         (panMode st) (editingNode st) (orientation st).

(** ** Rendering *)

(** [renderDiagram], up to its [await]: an empty or blank source clears the
    scene and the error and returns; any other source clears the error and
    starts [mermaid.render(id, code)]. *)
Definition renderDiagram (st : EditorState) : EditorState :=
  match trim (code st) with
  | [] => setError None (setSvgContent [] st)
  | _ :: _ => setInflight (inflight st ++ [code st]) (setError None st)
  end.


Fixpoint removeAt {A : Type} (k : nat) (l : list A) : list A :=
  match k, l with
  | _, [] => []
  | O, _ :: t => t
  | S k', x :: t => x :: removeAt k' t
  end.


(** The effect on [[theme, code]]: a new source text arrives as the [code]
    prop and is rendered.  The effect does not run when the text is the one
    already there. *)
Definition codeChanged (newCode : jsstring) (st : EditorState) : EditorState :=
  if str_eqb newCode (code st) then st
  else renderDiagram (setCode newCode st).

(** What the canvas shows: the error panel when [error] is set, the SVG
    otherwise. *)
Inductive canvas : Type :=
| RenderingFailed (msg : jsstring)
| Diagram (svg : jsstring).

Definition displayed (st : EditorState) : canvas :=
  match error st with
  | Some (c :: t) => RenderingFailed (c :: t)
  | _ => Diagram (svgContent st)
  end.





(** ** Editing a node's label *)

(** The characters [.*+?^${}()|[\]\] that [submitNodeUpdate] escapes. *)
Definition isSyntaxChar (c : N) : bool :=
  existsb (N.eqb c) (js ".*+?^${}()|[]" ++ [92]).

(** [text.replace(/[.*+?^${}()|[\]\\]/g, '\\$&')] *)
Fixpoint escapeRegExp (s : jsstring) : jsstring :=
  match s with
  | [] => []
  | c :: t => if isSyntaxChar c then 92 :: c :: escapeRegExp t
              else c :: escapeRegExp t
  end.

(** The characters a pattern source without unescaped syntax characters
    stands for: [\c] is the character [c], any other character is itself.
    This is the reading of the grammar ([literalSource] below) wherever
    that one is defined, and it is defined on every source that
    [escapeRegExp] returns. *)
Fixpoint patternChars (src : jsstring) : jsstring :=
  match src with
  | [] => []
  | 92 :: c :: t => c :: patternChars t
  | c :: t => c :: patternChars t
  end.

(** SyntaxCharacter of the pattern grammar: [^ $ \ . * + ? ( ) [ ] { } |]. *)
Definition SyntaxCharacter (c : N) : bool :=
  existsb (N.eqb c) (js "^$" ++ [92] ++ js ".*+?()[]{}|").

(** A pattern source read as the grammar reads a sequence of literals: a
    character that is no SyntaxCharacter matches itself, and a backslash
    followed by a SyntaxCharacter (an IdentityEscape) matches that
    character.  [None]: the source holds a SyntaxCharacter that is not
    escaped, or an escape of another kind, and is therefore no sequence of
    literals. *)
Fixpoint literalSource (src : jsstring) : option jsstring :=
  match src with
  | [] => Some []
  | 92 :: c :: t =>
      if SyntaxCharacter c then option_map (cons c) (literalSource t) else None
  | c :: t =>
      if SyntaxCharacter c then None else option_map (cons c) (literalSource t)
  end.

(** The pattern that [new RegExp(..., 'g')] is given: one of the openers
    [\[ \( \{ > \/] as group 1; as group 2 any white space, the escaped
    old text and any white space again; one of the closers
    [\] \) \} \) \\] as group 3. *)
Definition nodeRegex (escapedOldText : jsstring) : regex :=
  Seq (Group 1 (alts (Lit (js "[")) [Lit (js "("); Lit (js "{"); Lit (js ">"); Lit (js "/")]))
 (Seq (Group 2 (Seq (Star isWhiteSpace)
               (Seq (Lit (patternChars escapedOldText)) (Star isWhiteSpace))))
      (Group 3 (alts (Lit (js "]")) [Lit (js ")"); Lit (js "}"); Lit (js ")"); Lit [92]]))).

(** [submitNodeUpdate]: the pattern has the [g] flag, and
    [String.prototype.replace] with such a pattern replaces every match. *)
Definition submitNodeUpdate (newText : jsstring) (st : EditorState)
  : EditorState :=
  match editingNode st, onChange st with
  | Some node, true =>
      let escapedOldText := escapeRegExp (EditingNode.text node) in
      let regex := nodeRegex escapedOldText in
      let newCode :=
        replaceAll false regex (js "$1" ++ newText ++ js "$3") (code st) in
      setEditingNode None (codeChanged newCode st)
  | _, _ => st
  end.

(** [handleNodeDoubleClick], given what the click hit: the id and the text
    content of the closest [.node] group, if any. *)
Definition handleNodeDoubleClick (hit : option (jsstring * jsstring))
  (st : EditorState) : EditorState :=
  if panMode st || negb (onChange st) then st
  else match hit with
       | Some (fullId, currentText) =>
           setEditingNode (Some (EditingNode.Make fullId currentText)) st
       | None => st
       end.

(** The overlay's [onChange]: typing overwrites [editingNode.text]. *)
Definition overlayChange (value : jsstring) (st : EditorState) : EditorState :=
  match editingNode st with
  | Some node =>
      setEditingNode (Some (EditingNode.Make (EditingNode.id node) value)) st
  | None => st
  end.

Inductive key : Type := Enter (shiftKey : bool) | Escape | OtherKey.

(** The overlay's [onKeyDown]. *)
Definition overlayKeyDown (k : key) (st : EditorState) : EditorState :=
  match k, editingNode st with
  | Enter false, Some node => submitNodeUpdate (EditingNode.text node) st
  | Escape, _ => setEditingNode None st
  | _, _ => st
  end.

(** The overlay's [onBlur]. *)
Definition overlayBlur (st : EditorState) : EditorState :=
  setEditingNode None st.

(** ** Orientation *)

Definition dirName (d : Orientation) : jsstring :=
  match d with TD => js "TD" | LR => js "LR" end.

Definition isUpper (c : N) : bool := (65 <=? c) && (c <=? 90).

(** [/^(graph|flowchart)\s+(TD|LR|TB|BT|RL)/m] *)
Definition headerRegex : regex :=
  Seq Bol
 (Seq (Group 1 (Alt (Lit (js "graph")) (Lit (js "flowchart"))))
 (Seq (Plus isWhiteSpace)
      (Group 2 (alts (Lit (js "TD"))
                  [Lit (js "LR"); Lit (js "TB"); Lit (js "BT"); Lit (js "RL")])))).

(** [/^(graph|flowchart)/] *)
Definition startRegex : regex :=
  Seq Bol (Group 1 (Alt (Lit (js "graph")) (Lit (js "flowchart")))).

(** [/(graph|flowchart)\s+[A-Z]+/] *)
Definition keywordRegex : regex :=
  Seq (Group 1 (Alt (Lit (js "graph")) (Lit (js "flowchart"))))
 (Seq (Plus isWhiteSpace) (Plus isUpper)).

Definition toggledCode (newDir : Orientation) (code : jsstring) : jsstring :=
  let template := js "$1 " ++ dirName newDir in
  let newCode := replaceFirst true headerRegex template code in
  if str_eqb newCode code &&
     negb (match exec false startRegex code with Some _ => true | None => false end)
  then js "graph " ++ dirName newDir ++ [LF] ++ code
  else if str_eqb newCode code
  then replaceFirst false keywordRegex template code
  else newCode.

Definition toggleOrientation (st : EditorState) : EditorState :=
  let newDir := match orientation st with TD => LR | LR => TD end in
  let st' := setOrientation newDir st in
  if negb (onChange st) then st'
  else codeChanged (toggledCode newDir (code st)) st'.

(** [injectSyntax] *)
Definition injectSyntax (syntax : jsstring) (st : EditorState) : EditorState :=
  if negb (onChange st) then st
  else codeChanged (code st ++ [LF] ++ syntax) st.

(** ** Zoom

    The scale is a binary64 float, and the handlers compute on it with the
    rounded operations of IEEE 754: [PrimFloat] is that arithmetic, and
    [Prim2SF] with the specification of its operations is what the proofs
    below rest on.  The literals are the doubles that the source's decimal
    literals denote. *)

(** [0.1] *)
Definition lit_0_1 : float := 0x1.999999999999ap-4%float.

(** [0.001] *)
Definition lit_0_001 : float := 0x1.0624dd2f1a9fcp-10%float.

(** [Math.max(a, b)]: NaN when either argument is NaN; of two zeros of
    different sign, the positive one. *)
Definition Math_max (a b : float) : float :=
  if is_nan a || is_nan b then nan
  else if (a <? b)%float then b
  else if (b <? a)%float then a
  else match classify a with NZero => b | _ => a end.

(** [Math.min(a, b)]: NaN when either argument is NaN; of two zeros of
    different sign, the negative one. *)
Definition Math_min (a b : float) : float :=
  if is_nan a || is_nan b then nan
  else if (a <? b)%float then a
  else if (b <? a)%float then b
  else match classify a with NZero => a | _ => b end.

(** The handlers that write [scale]: the zoom-out, reset and zoom-in
    buttons, the fit button, and the wheel ([ctrl] stands for
    [e.ctrlKey || e.metaKey], [deltaY] for [e.deltaY]). *)
Inductive zoom_op : Type :=
| ZoomOut
| ZoomIn
| ResetView
| Wheel (ctrl : bool) (deltaY : float).

Definition zoom (s : float) (op : zoom_op) : float :=
  match op with
  | ZoomOut => Math_max lit_0_1 (s - lit_0_1)%float
  | ZoomIn => Math_min 5%float (s + lit_0_1)%float
  | ResetView => 1%float
  | Wheel true deltaY =>
      Math_max lit_0_1 (Math_min 5%float (s - deltaY * lit_0_001)%float)
  | Wheel false _ => s
  end.

(** The scale after a sequence of zoom operations. *)
Definition zoomAll (ops : list zoom_op) (s : float) : float :=
  fold_left zoom ops s.

(** The scale is in range: [0.1 <= s && s <= 5]. *)
Definition inRange (s : float) : bool :=
  ((lit_0_1 <=? s) && (s <=? 5))%float.

(** What a wheel event carries: [deltaY] is a WebIDL [double], so it is
    never NaN. *)
Definition wheelEvent (op : zoom_op) : Prop :=
  match op with
  | Wheel _ deltaY => is_nan deltaY = false
  | _ => True
  end.

(* ================================================================== *)
(** * JavaScript values

    What [JSON.parse] and the conversion library deliver, and what the
    [any[]] of [DiagramState.excalidrawElements] therefore holds.  An object
    is the list of its properties in insertion order. *)
(* ================================================================== *)

#[local] Unset Elimination Schemes.
Inductive value : Type :=
| VUndefined
| VNull
| VBool (b : bool)
| VNumber (x : float)
| VString (s : jsstring)
| VArray (items : list value)
| VObject (props : list (jsstring * value)).
#[local] Set Elimination Schemes.

Definition object : Type := list (jsstring * value).

(** ToBoolean *)
Definition truthy (v : value) : bool :=
  match v with
  | VUndefined | VNull => false
  | VBool b => b
  | VNumber x => negb (PrimFloat.eqb x 0%float) && PrimFloat.eqb x x
  | VString [] => false
  | VString (_ :: _) => true
  | VArray _ | VObject _ => true
  end.

(** [o.k] on an object. *)
Fixpoint lookup (k : jsstring) (o : object) : value :=
  match o with
  | [] => VUndefined
  | (k', v) :: o' => if str_eqb k k' then v else lookup k o'
  end.

(** [v.k] on any value, for the property names the wrapper reads: [None] is
    the TypeError of reading a property of [null] or [undefined]; none of
    the names is a property that strings, numbers, booleans or arrays
    inherit. *)
Definition getProp (v : value) (k : jsstring) : option value :=
  match v with
  | VUndefined | VNull => None
  | VObject o => Some (lookup k o)
  | _ => Some VUndefined
  end.

(** [o.k = v]: an existing property keeps its place. *)
Fixpoint setProp (k : jsstring) (v : value) (o : object) : object :=
  match o with
  | [] => [(k, v)]
  | (k', v') :: o' =>
      if str_eqb k k' then (k', v) :: o' else (k', v') :: setProp k v o'
  end.

(** [{ ...base, k1: v1, ..., kn: vn }] *)
Definition extend (base : object) (props : list (jsstring * value)) : object :=
  fold_left (fun o kv => setProp (fst kv) (snd kv) o) props base.

Definition nat_toString (n : nat) : jsstring := N_toString (N.of_nat n).

Fixpoint indexed (i : nat) (vs : list value) : object :=
  match vs with
  | [] => []
  | v :: vs' => (nat_toString i, v) :: indexed (S i) vs'
  end.

(** [{ ...v }]: the own enumerable properties of [v]. *)
Definition spread (v : value) : object :=
  match v with
  | VObject o => o
  | VArray vs => indexed 0 vs
  | VString s => indexed 0 (map (fun c => VString [c]) s)
  | _ => []
  end.

(** [v === 'lit'] *)
Definition isString (lit : jsstring) (v : value) : bool :=
  match v with
  | VString s => str_eqb s lit
  | _ => false
  end.

(** [v || d] *)
Definition orElse (v d : value) : value := if truthy v then v else d.

(** [o] has an own property [k]. *)
Definition hasOwn (k : jsstring) (o : object) : bool :=
  existsb (fun kv => str_eqb k (fst kv)) o.

(** Whether converting [v] to a primitive throws a TypeError.  The values
    here hold no functions.  An object with an own [toString] property
    throws: that property hides [Object.prototype.toString] and cannot be
    called, and [valueOf], own or inherited, gives no primitive; any other
    object converts to ["[object Object]"].  An array converts through
    [join], which converts every element but [null] and [undefined] to a
    string, so it throws when one of its elements does. *)
Fixpoint toPrimitiveThrows (v : value) : bool :=
  match v with
  | VObject o => hasOwn (js "toString") o
  | VArray items => existsb toPrimitiveThrows items
  | _ => false
  end.

(** [JSON.parse(JSON.stringify(v))] for a value held in a property:
    a number that is not finite comes back as [null] and a negative zero as
    zero, a property that holds [undefined] is gone, and an [undefined] in
    an array comes back as [null]. *)
Fixpoint JSON_roundTrip (v : value) : value :=
  match v with
  | VNumber x =>
      if is_finite x then (if is_zero x then VNumber 0 else VNumber x)
      else VNull
  | VArray items =>
      VArray (map (fun item => match item with
                               | VUndefined => VNull
                               | _ => JSON_roundTrip item
                               end) items)
  | VObject props =>
      VObject ((fix own (props : list (jsstring * value)) :=
                  match props with
                  | [] => []
                  | (k, VUndefined) :: rest => own rest
                  | (k, x) :: rest => (k, JSON_roundTrip x) :: own rest
                  end) props)
  | _ => v
  end.

(* ================================================================== *)
(** * The ExcalidrawWrapper component
      ([src/components/ExcalidrawWrapper.tsx]) *)
(* ================================================================== *)

(** [el.id && el.type], as a condition. *)
Definition hasIdAndType (el : value) : option bool :=
  match getProp el (js "id") with
  | None => None
  | Some i =>
      if truthy i then
        match getProp el (js "type") with
        | None => None
        | Some t => Some (truthy t)
        end
      else Some false
  end.

(** [elements.some(cb)]: stops at the first element the callback accepts. *)
Fixpoint array_some (cb : value -> option bool) (elements : list value)
  : option bool :=
  match elements with
  | [] => Some false
  | el :: rest =>
      match cb el with
      | None => None
      | Some true => Some true
      | Some false => array_some cb rest
      end
  end.

Definition isAlreadyExcalidraw (elements : list value) : option bool :=
  array_some hasIdAndType elements.

(** The condition of the colour patch:
    [el.strokeColor === '#000000' || el.strokeColor === 'black' || !el.strokeColor] *)
Definition blackOrUnset (el : object) : bool :=
  isString (js "#000000") (lookup (js "strokeColor") el) ||
  isString (js "black") (lookup (js "strokeColor") el) ||
  negb (truthy (lookup (js "strokeColor") el)).

Definition lightSlate : value := VString (js "#e2e8f0").

Definition patchStroke (el : object) : object :=
  if blackOrUnset el then setProp (js "strokeColor") lightSlate el else el.

(** The colour patch of the dark theme. *)
Definition colorPatch (isDarkMode : bool) (finalElements : list object)
  : list object :=
  if isDarkMode then map patchStroke finalElements else finalElements.

(** The branch for elements that are Excalidraw elements already: clone
    every element, then patch the colours. *)
Definition passThrough (isDarkMode : bool) (elements : list value)
  : list object :=
  colorPatch isDarkMode (map spread elements).

Section Descriptors.

(** The number that a string, or the string an array converts to, stands
    for (StringToNumber). *)
Variable coerce : value -> float.

(** [Date.now()] as read while the element at a given index is mapped. *)
Variable now : nat -> N.

Variable isDarkMode : bool.

(** ToNumber: [None] is the TypeError of an operand that has no
    primitive value. *)
Definition ToNumber (v : value) : option float :=
  match v with
  | VNumber x => Some x
  | VUndefined => Some PrimFloat.nan
  | VNull => Some 0%float
  | VBool true => Some 1%float
  | VBool false => Some 0%float
  | VString _ => Some (coerce v)
  | VArray _ => if toPrimitiveThrows v then None else Some (coerce v)
  | VObject _ => if toPrimitiveThrows v then None else Some PrimFloat.nan
  end.

(** [a - b]: both operands are converted, the left one first. *)
Definition minus (a b : value) : option value :=
  match ToNumber a, ToNumber b with
  | Some x, Some y => Some (VNumber (PrimFloat.sub x y))
  | _, _ => None
  end.

Definition num (x : float) : value := VNumber x.
Definition str (s : string) : value := VString (js s).

Definition base (index : nat) (backgroundColor : value) : object :=
  [ (js "id", VString (js "el-" ++ nat_toString index ++ js "-" ++ N_toString (now index)));
    (js "roughness", num 1);
    (js "strokeWidth", num 1);
    (js "fillStyle", str "solid");
    (js "strokeColor", if isDarkMode then str "#e2e8f0" else str "#1e293b");
    (js "backgroundColor", orElse backgroundColor (str "transparent")) ].

(** The callback of the second [elements.map]: [None] is a TypeError (a
    property read on [null] or [undefined], or a subtraction whose operand
    has no primitive value), [Some None] the [null] of an unrecognised
    kind. *)
Definition mapDescriptor (index : nat) (el : value) : option (option object) :=
  match getProp el (js "type") with
  | None => None
  | Some _ =>
      let get k := match getProp el (js k) with Some v => v | None => VUndefined end in
      let base := base index (get "backgroundColor") in
      if isString (js "rectangle") (get "type") || isString (js "ellipse") (get "type")
      then Some (Some (extend base
             [ (js "type", get "type");
               (js "x", orElse (get "x") (num 0));
               (js "y", orElse (get "y") (num 0));
               (js "width", orElse (get "width") (num 100));
               (js "height", orElse (get "height") (num 50));
               (js "label", if truthy (get "label")
                            then VObject [(js "text", get "label")]
                            else VUndefined) ]))
      else if isString (js "arrow") (get "type")
      then match minus (orElse (get "endX") (num 100))
                       (orElse (get "startX") (num 0)),
                 minus (orElse (get "endY") (num 100))
                       (orElse (get "startY") (num 0)) with
           | Some dx, Some dy =>
               Some (Some (extend base
                 [ (js "type", str "arrow");
                   (js "x", orElse (get "startX") (num 0));
                   (js "y", orElse (get "startY") (num 0));
                   (js "points",
                    VArray [ VArray [num 0; num 0]; VArray [dx; dy] ]) ]))
           | _, _ => None
           end
      else if isString (js "text") (get "type")
      then Some (Some (extend base
             [ (js "type", str "text");
               (js "x", orElse (get "x") (num 0));
               (js "y", orElse (get "y") (num 0));
               (js "text", orElse (orElse (get "text") (get "label")) (str "Text"));
               (js "fontSize", orElse (get "fontSize") (num 20));
               (js "strokeColor", if isDarkMode then str "#f8fafc" else str "#0f172a") ]))
      else Some None
  end.

(** [elements.map((el, index) => ...).filter(Boolean)] from [index] on. *)
Fixpoint mapDescriptors (index : nat) (elements : list value)
  : option (list object) :=
  match elements with
  | [] => Some []
  | el :: rest =>
      match mapDescriptor index el with
      | None => None
      | Some r =>
          match mapDescriptors (S index) rest with
          | None => None
          | Some l => Some (match r with Some o => o :: l | None => l end)
          end
      end
  end.

(** How the element-loading effect ends: it returns early, it throws a
    TypeError, or it reaches the end with [finalElements] (and has handed
    them to [updateScene] if there are any). *)
Inductive loaded : Type :=
| NothingToDo
| TypeError
| FinalElements (finalElements : list object).

(** The body of the effect on [[elements, excalidrawAPI, isDarkMode]]. *)
Definition loadElements (excalidrawAPI : bool) (elements : value) : loaded :=
  if negb excalidrawAPI || negb (truthy elements) then NothingToDo
  else match elements with
       | VArray items =>
           match isAlreadyExcalidraw items with
           | None => TypeError
           | Some true => FinalElements (passThrough isDarkMode items)
           | Some false =>
               match mapDescriptors 0 items with
               | None => TypeError
               | Some l => FinalElements l
               end
           end
       | _ => TypeError   (* elements.some is not a function *)
       end.

End Descriptors.

(* ================================================================== *)
(** * The App component ([src/App.tsx], [src/types.ts]) *)
(* ================================================================== *)

Inductive DiagramType : Type := MERMAID | EXCALIDRAW.

Record DiagramState : Type := MkDiagramState {
  mermaidCode : jsstring;
  excalidrawElements : value;
  title : jsstring
}.

Module HistoryItem.
Record t : Type := Make {
  id : jsstring;
  timestamp : N;
  type : DiagramType;
  preview : jsstring;
  state : DiagramState
}.
End HistoryItem.

(** The state hooks of [App], the [diagram_history] entry of
    [localStorage] (what [JSON.parse] reads from the text last stored
    there, if any), and the [alert] dialogs shown so far, oldest first. *)
Record AppState : Type := MkApp {
  activeTab : DiagramType;
  isLoading : bool;
  diagramState : DiagramState;
  history : list HistoryItem.t;
  showCodeEditor : bool;
  diagram_history : option (list HistoryItem.t);
  alerts : list jsstring
}.

Definition setActiveTab (v : DiagramType) (st : AppState) : AppState :=
  MkApp v (isLoading st) (diagramState st) (history st) (showCodeEditor st)
        (diagram_history st) (alerts st).

Definition setIsLoading (v : bool) (st : AppState) : AppState :=
  MkApp (activeTab st) v (diagramState st) (history st) (showCodeEditor st)
        (diagram_history st) (alerts st).

Definition setDiagramState (v : DiagramState) (st : AppState) : AppState :=
  MkApp (activeTab st) (isLoading st) v (history st) (showCodeEditor st)
        (diagram_history st) (alerts st).

Definition setHistory (v : list HistoryItem.t) (st : AppState) : AppState :=
  MkApp (activeTab st) (isLoading st) (diagramState st) v (showCodeEditor st)
        (diagram_history st) (alerts st).

Definition setShowCodeEditor (v : bool) (st : AppState) : AppState :=
  MkApp (activeTab st) (isLoading st) (diagramState st) (history st) v
        (diagram_history st) (alerts st).

(** How a call that may throw ends. *)
Inductive completion : Type := Returns | Throws.

(** A history item as it comes back from local storage: its strings, its
    timestamp and its type are kept, and the elements of its state go
    through [JSON.stringify] and [JSON.parse]. *)
Definition storedItem (item : HistoryItem.t) : HistoryItem.t :=
  let state := HistoryItem.state item in
  HistoryItem.Make (HistoryItem.id item) (HistoryItem.timestamp item)
                   (HistoryItem.type item) (HistoryItem.preview item)
                   (MkDiagramState (mermaidCode state)
                                   (JSON_roundTrip (excalidrawElements state))
                                   (title state)).

(** [localStorage.setItem('diagram_history', JSON.stringify(v))].
    [setItem] is how the call ends: it throws when the browser refuses the
    write (the quota is exceeded, or storage is disabled), and the entry
    then stays as it was. *)
Definition storeHistory (setItem : completion) (v : list HistoryItem.t)
  (st : AppState) : AppState :=
  match setItem with
  | Returns =>
      MkApp (activeTab st) (isLoading st) (diagramState st) (history st)
            (showCodeEditor st) (Some (map storedItem v)) (alerts st)
  | Throws => st
  end.

Definition alert (msg : jsstring) (st : AppState) : AppState :=
  MkApp (activeTab st) (isLoading st) (diagramState st) (history st)
        (showCodeEditor st) (diagram_history st) (alerts st ++ [msg]).

(** [saveToHistory].  [seen] is the state of the render that created the
    handler: its [activeTab] and [history] are the ones the closure reads.
    [clock] holds the two readings of [Date.now()].  [setHistory] comes
    before the write to local storage, so the history is set also when the
    write throws; [saveToHistory] then throws in its turn, which its
    caller sees in [setItem]. *)
Definition saveToHistory (seen : AppState) (clock : N * N)
  (setItem : completion) (newState : DiagramState) (st : AppState) : AppState :=
  let newItem :=
    HistoryItem.Make (N_toString (fst clock)) (snd clock) (activeTab seen)
                     (title newState) newState in
  let updatedHistory := firstn 20 (newItem :: history seen) in
  storeHistory setItem updatedHistory (setHistory updatedHistory st).

(** [handleGenerate] up to its [await]. *)
Definition handleGenerate_begin (st : AppState) : AppState :=
  setIsLoading true st.

(** [handleGenerate] after [await generateDiagramCode(...)] has settled.
    [parsed] is what [JSON.parse(response)] does in the Excalidraw branch:
    [Some v] when it returns [v], [None] when it throws.  When
    [saveToHistory] throws, the Mermaid branch leaves for the outer [catch]
    before [setShowCodeEditor], and the Excalidraw branch for the [catch]
    around [JSON.parse]. *)
Definition handleGenerate (seen : AppState) (prompt : jsstring)
  (response : settled jsstring unit) (parsed : option value) (clock : N * N)
  (setItem : completion) (st : AppState) : AppState :=
  setIsLoading false
    match response with
    | Rejected _ =>
        alert (js "Failed to generate diagram. Please check your API key and try again.") st
    | Fulfilled response =>
        match activeTab seen with
        | MERMAID =>
            let newState :=
              MkDiagramState response
                             (excalidrawElements (diagramState seen))
                             (slice0 30 prompt) in
            let saved :=
              saveToHistory seen clock setItem newState
                            (setDiagramState newState st) in
            match setItem with
            | Returns => setShowCodeEditor true saved
            | Throws =>
                alert (js "Failed to generate diagram. Please check your API key and try again.") saved
            end
        | EXCALIDRAW =>
            match parsed with
            | Some elements =>
                let newState :=
                  MkDiagramState (mermaidCode (diagramState seen)) elements
                                 (slice0 30 prompt) in
                let saved :=
                  saveToHistory seen clock setItem newState
                                (setDiagramState newState st) in
                match setItem with
                | Returns => saved
                | Throws =>
                    alert (js "AI generated invalid data structure. Please try again.") saved
                end
            | None =>
                alert (js "AI generated invalid data structure. Please try again.") st
            end
        end
    end.

(** [handleConvertToExcalidraw] up to its first [await]. *)
Definition handleConvertToExcalidraw_begin (st : AppState) : AppState :=
  setIsLoading true st.

(** What the [catch] of [handleConvertToExcalidraw] receives: [null] or
    [undefined], or any other value with the string that its [message]
    property holds ([None] when it holds none). *)
Inductive thrown : Type :=
| Nullish
| Thrown (message : option jsstring).

(** [handleConvertToExcalidraw] once the import and
    [parseMermaidToExcalidraw(diagramState.mermaidCode, ...)] have settled:
    with the elements, or with what was thrown.  The [catch] reads
    [e.message] as it is: on [null] and [undefined] that read throws, and
    the handler leaves through [finally] without an alert. *)
Definition handleConvertToExcalidraw
  (converted : settled value thrown) (st : AppState) : AppState :=
  setIsLoading false
    match converted with
    | Fulfilled excalidrawElements =>
        let prev := diagramState st in
        setActiveTab EXCALIDRAW
          (setDiagramState
             (MkDiagramState (mermaidCode prev) excalidrawElements (title prev))
             st)
    | Rejected Nullish => st
    | Rejected (Thrown message) =>
        let shown := match message with
                     | Some (c :: t) => c :: t
                     | _ => js "Unknown error"
                     end in
        alert (js "Failed to convert diagram: " ++ shown ++
               js ". Check console for details.") st
    end.

(** [handleHistorySelect] *)
Definition handleHistorySelect (item : HistoryItem.t) (st : AppState)
  : AppState :=
  setDiagramState (HistoryItem.state item)
    (setActiveTab (HistoryItem.type item) st).

(* ================================================================== *)
(** * The generation service ([src/services/geminiService.ts])

    [text] is [response.text] of the model's reply, [None] when the reply
    carries no text. *)
(* ================================================================== *)

(** The end of [generateMermaid]: [response.text || ''], then
    [text.replace(/```mermaid/g, '').replace(/```/g, '').trim()]. *)
Definition generateMermaid (text : option jsstring) : jsstring :=
  let text := match text with
              | Some (c :: t) => c :: t
              | _ => []
              end in
  trim (replaceAll false (Lit (js "```")) []
          (replaceAll false (Lit (js "```mermaid")) [] text)).

(** The end of [generateExcalidrawJSON]: [response.text || '[]']. *)
Definition generateExcalidrawJSON (text : option jsstring) : jsstring :=
  match text with
  | Some (c :: t) => c :: t
  | _ => js "[]"
  end.

(** [generateDiagramCode], given how [ai.models.generateContent] settled:
    a rejection is thrown on to the caller. *)
Definition generateDiagramCode (type : DiagramType)
  (reply : settled (option jsstring) unit) : settled jsstring unit :=
  match reply with
  | Rejected e => Rejected e
  | Fulfilled text =>
      Fulfilled match type with
                | MERMAID => generateMermaid text
                | EXCALIDRAW => generateExcalidrawJSON text
                end
  end.

(* ================================================================== *)
(** * The App component as a transition system *)
(* ================================================================== *)

(** [setDiagramState(prev => ({ ...prev, mermaidCode: code }))]: the
    [onChange] of the code textarea and of the editor. *)
Definition setMermaidCode (code : jsstring) (st : AppState) : AppState :=
  setDiagramState
    (MkDiagramState code (excalidrawElements (diagramState st))
                    (title (diagramState st)))
    st.

(** The mount effect: the history that the application stored earlier, if
    any, becomes the history, as [JSON.parse] reads it. *)
Definition loadHistory (st : AppState) : AppState :=
  match diagram_history st with
  | Some saved => setHistory saved st
  | None => st
  end.

(** What can happen to [App]: its effects and handlers, each settled
    promise with the closure of the handler that awaited it. *)
Inductive app_event : Type :=
| Mounted
| GenerateStarted
| GenerateSettled (seen : AppState) (prompt : jsstring)
    (response : settled jsstring unit) (parsed : option value) (clock : N * N)
    (setItem : completion)
| ConvertStarted
| ConvertSettled (converted : settled value thrown)
| HistorySelected (item : HistoryItem.t)
| CodeEdited (code : jsstring)
| TabChanged (tab : DiagramType)
| CodeEditorToggled.

Definition app_step (st : AppState) (ev : app_event) : AppState :=
  match ev with
  | Mounted => loadHistory st
  | GenerateStarted => handleGenerate_begin st
  | GenerateSettled seen prompt response parsed clock setItem =>
      handleGenerate seen prompt response parsed clock setItem st
  | ConvertStarted => handleConvertToExcalidraw_begin st
  | ConvertSettled converted => handleConvertToExcalidraw converted st
  | HistorySelected item => handleHistorySelect item st
  | CodeEdited code => setMermaidCode code st
  | TabChanged tab => setActiveTab tab st
  | CodeEditorToggled => setShowCodeEditor (negb (showCodeEditor st)) st
  end.

Definition app_run (evs : list app_event) (st : AppState) : AppState :=
  fold_left app_step evs st.

(** What every reachable state of [App] satisfies: at most 20 history
    entries, in the state and in local storage. *)
Definition historyInvariant (st : AppState) : Prop :=
  (length (history st) <= 20)%nat /\
  (forall saved, diagram_history st = Some saved -> (length saved <= 20)%nat).

(* ================================================================== *)
(** * Predicates on source texts and elements *)
(* ================================================================== *)

(** The delimiters that [submitNodeUpdate]'s pattern accepts. *)
Definition isOpener (c : N) : bool := existsb (N.eqb c) (js "[({>/").
Definition isCloser (c : N) : bool := existsb (N.eqb c) (js "])}" ++ [92]).

(** [null] or [undefined]. *)
Definition isNullish (v : value) : bool :=
  match v with
  | VUndefined | VNull => true
  | _ => false
  end.

(** The operands of the two subtractions of the arrow branch:
    [el.endX || 100], [el.startX || 0], [el.endY || 100], [el.startY || 0]. *)
Definition arrowOperands (el : value) : list value :=
  let get k := match getProp el (js k) with Some v => v | None => VUndefined end in
  [ orElse (get "endX") (VNumber 100); orElse (get "startX") (VNumber 0);
    orElse (get "endY") (VNumber 100); orElse (get "startY") (VNumber 0) ].

(** An arrow descriptor with a coordinate that has no primitive value. *)
Definition throwingArrow (el : value) : bool :=
  match getProp el (js "type") with
  | Some ty => isString (js "arrow") ty && existsb toPrimitiveThrows (arrowOperands el)
  | None => false
  end.

(** The kinds that the wrapper maps. *)
Definition isKnownKind (v : value) : bool :=
  isString (js "rectangle") v || isString (js "ellipse") v ||
  isString (js "arrow") v || isString (js "text") v.

(** The id that the wrapper gives the element mapped at [index]. *)
Definition generatedId (now : nat -> N) (index : nat) : jsstring :=
  js "el-" ++ nat_toString index ++ js "-" ++ N_toString (now index).

(* ================================================================== *)
(** * Auxiliary definitions for the proofs *)
(* ================================================================== *)

(** The alternatives of groups 1 and 3 of [nodeRegex], by code unit. *)
Definition openers : regex :=
  alts (Lit [91]) [Lit [40]; Lit [123]; Lit [62]; Lit [47]].
Definition closers : regex :=
  alts (Lit [93]) [Lit [41]; Lit [125]; Lit [41]; Lit [92]].

(** The markdown fence, three backticks. *)
(** The mantissas of the doubles [0.1] and [5], whose exponents are -56
    and -50. *)
Definition mantissa_0_1 : positive := 7205759403792794.
Definition mantissa_5 : positive := 5629499534213120.

Definition fence : jsstring := [96; 96; 96].

(** What replacing every fence by the empty string amounts to: scanning
    from the left, a fence is dropped where one starts. *)
Fixpoint stripFences (s : jsstring) : jsstring :=
  match s with
  | [] => []
  | 96 :: 96 :: 96 :: t => stripFences t
  | c :: t => c :: stripFences t
  end.

(** The text starts with one backtick, with two backticks. *)
Definition tick1 (s : jsstring) : bool :=
  match s with c :: _ => 96 =? c | [] => false end.
Definition ticks2 (s : jsstring) : bool :=
  match s with a :: b :: _ => (96 =? a) && (96 =? b) | _ => false end.

(** The sequence-diagram template of [src/types.ts]. *)
Definition sequenceTemplate : jsstring :=
  js "sequenceDiagram" ++ [LF] ++
  js "  Alice->>John: Hello John, how are you?" ++ [LF] ++
  js "  John-->>Alice: Great!".

(* ================================================================== *)
(** * Sample states and inputs *)
(* ================================================================== *)

(** The editor as it is mounted on a source text, before its first render:
    nothing on display, nothing in flight. *)
Definition mounted (code : jsstring) : EditorState :=
  Editor code true [] None [] false None TD.

Definition sourceX : jsstring := js "graph TD" ++ [LF] ++ js "A-->B".
Definition sourceY : jsstring := js "graph TD" ++ [LF] ++ js "A-->C".
Definition svgX : jsstring := js "<svg>A-->B</svg>".

(** An edit session on the node labelled [text]. *)
Definition editing (code text : jsstring) : EditorState :=
  Editor code true [] None [] false (Some (EditingNode.Make (js "flowchart-A-0") text)) TD.

Definition twoBoxes : jsstring := js "A[Box]" ++ [LF] ++ js "B[Box]".

(** ToNumber on the strings and objects of the samples: none of them
    is a numeric string or an array, and any other string and any plain
    object converts to NaN. *)
Definition sampleCoerce (v : value) : float := PrimFloat.nan.

Definition sampleClock (index : nat) : N := 1700000000000.

(** A converted element: it has an id, a kind and the black stroke of the
    conversion. *)
Definition convertedBox : value :=
  VObject [ (js "id", VString (js "A")); (js "type", VString (js "rectangle"));
            (js "strokeColor", VString (js "#000000")) ].

(** A shape descriptor of the generation service: a kind, no id. *)
Definition describedBox : value :=
  VObject [ (js "type", VString (js "rectangle")); (js "label", VString (js "B")) ].

(** An arrow descriptor whose [endX] is an object with own [valueOf] and
    [toString] properties that are no functions, as [JSON.parse] delivers
    it. *)
Definition badArrow : value :=
  VObject [ (js "type", VString (js "arrow"));
            (js "endX", VObject [ (js "valueOf", VNumber 1);
                                  (js "toString", VNumber 1) ]) ].

(** A descriptor of a kind that the wrapper does not map. *)
Definition describedNote : value :=
  VObject [ (js "type", VString (js "note")); (js "label", VString (js "N")) ].

(** The scene mapped from a box, a note and a second box in the dark
    theme. *)
Definition describedScene : list object :=
  match mapDescriptors sampleCoerce sampleClock true 0
          [describedBox; describedNote; describedBox] with
  | Some l => l
  | None => []
  end.

(** The application as it starts with no stored history. *)
Definition initialApp : AppState :=
  MkApp MERMAID false
        (MkDiagramState
           (js "graph TD" ++ [LF] ++
            js "    A[Start] --> B{Is it working?}" ++ [LF] ++
            js "    B -- Yes --> C[Great!]" ++ [LF] ++
            js "    B -- No --> D[Debug]")
           (VArray [])
           (js "Untitled Diagram"))
        [] true None [].

Definition newItem (seen : AppState) (clock : N * N) (newState : DiagramState)
  : HistoryItem.t :=
  HistoryItem.Make (N_toString (fst clock)) (snd clock) (activeTab seen)
                   (title newState) newState.

(** The application with the Excalidraw tab active. *)
Definition excalidrawApp : AppState := setActiveTab EXCALIDRAW initialApp.

(* ================================================================== *)
(** * Facts about strings and lists *)
(* ================================================================== *)

Lemma str_eqb_refl (a : jsstring) : str_eqb a a = true.
Proof.
  induction a as [|x a IH]; simpl; [reflexivity|].
  now rewrite N.eqb_refl, IH.
Qed.

Lemma str_eqb_eq (a b : jsstring) : str_eqb a b = true <-> a = b.
Proof.
  split; [|intros ->; apply str_eqb_refl].
  revert b; induction a as [|x a IH]; intros [|y b]; simpl; try easy.
  rewrite andb_true_iff, N.eqb_eq. intros [-> H]. now rewrite (IH b H).
Qed.

Lemma str_eqb_neq (a b : jsstring) : a <> b -> str_eqb a b = false.
Proof.
  intros H. destruct (str_eqb a b) eqn:E; [|reflexivity].
  now apply str_eqb_eq in E.
Qed.

Lemma dropWhile_all (p : N -> bool) (s : jsstring) :
  forallb p s = true -> dropWhile p s = [].
Proof.
  induction s as [|c s IH]; simpl; [reflexivity|].
  rewrite andb_true_iff. intros [-> H]. exact (IH H).
Qed.

Lemma trim_blank (s : jsstring) : forallb isWhiteSpace s = true -> trim s = [].
Proof.
  intros H. unfold trim. now rewrite (dropWhile_all _ _ H).
Qed.

Lemma nth_error_middle {A : Type} (l r : list A) (x : A) :
  nth_error (l ++ x :: r) (length l) = Some x.
Proof. induction l as [|y l IH]; simpl; [reflexivity|exact IH]. Qed.


(* ================================================================== *)
(** * Rendering *)
(* ================================================================== *)

Lemma code_renderDiagram (st : EditorState) : code (renderDiagram st) = code st.
Proof. unfold renderDiagram. now destruct (trim (code st)). Qed.

Lemma code_codeChanged (newCode : jsstring) (st : EditorState) :
  code (codeChanged newCode st) = newCode.
Proof.
  unfold codeChanged. destruct (str_eqb newCode (code st)) eqn:E.
  - symmetry. now apply str_eqb_eq.
  - now rewrite code_renderDiagram.
Qed.

(** A new, non-blank source text starts one more render and clears the
    error; the scene on display stays. *)
Lemma codeChanged_starts_render (newCode : jsstring) (st : EditorState) :
  trim newCode <> [] -> newCode <> code st ->
  codeChanged newCode st =
  Editor newCode (onChange st) (svgContent st) None (inflight st ++ [newCode])
         (panMode st) (editingNode st) (orientation st).
Proof.
  intros Hblank Hnew. unfold codeChanged, renderDiagram.
  rewrite (str_eqb_neq _ _ Hnew). simpl code.
  destruct (trim newCode); [contradiction|reflexivity].
Qed.





(** C6: a source text that is empty or all white space renders to the empty
    scene: [svgContent] becomes the empty string, the error is cleared, and
    no [mermaid.render] call is started, so nothing can fail for it. *)
Theorem blank_source_renders_empty_scene (st : EditorState) :
  forallb isWhiteSpace (code st) = true ->
  svgContent (renderDiagram st) = [] /\
  error (renderDiagram st) = None /\
  inflight (renderDiagram st) = inflight st /\
  displayed (renderDiagram st) = Diagram [].
Proof.
  intros H. unfold renderDiagram. rewrite (trim_blank _ H). now cbn.
Qed.

Lemma blank_source_renders_empty_scene_witness :
  let st := Editor (js "  " ++ [LF; 9] ++ js " ") true svgX
                   (Some (js "Syntax Error")) [sourceX] false None TD in
  svgContent (renderDiagram st) = [] /\
  error (renderDiagram st) = None /\
  inflight (renderDiagram st) = [sourceX] /\
  displayed (renderDiagram st) = Diagram [].
Proof.
  exact (blank_source_renders_empty_scene
           (Editor (js "  " ++ [LF; 9] ++ js " ") true svgX
                   (Some (js "Syntax Error")) [sourceX] false None TD)
           eq_refl).
Defined.

(* ================================================================== *)
(** * Editing a label and toggling the orientation *)
(* ================================================================== *)

Lemma patternChars_plain (c : N) (t : jsstring) :
  c <> 92 -> patternChars (c :: t) = c :: patternChars t.
Proof.
  intros H. destruct c as [|p]; [now destruct t|].
  repeat (destruct p as [p|p|]; try (now destruct t)).
Qed.

(** Escaping makes the old label a literal: the pattern built from the
    escaped text matches the text itself, character for character. *)
Lemma patternChars_escapeRegExp (s : jsstring) :
  patternChars (escapeRegExp s) = s.
Proof.
  induction s as [|c s IH]; [reflexivity|].
  simpl escapeRegExp. destruct (isSyntaxChar c) eqn:E.
  - simpl. now rewrite IH.
  - rewrite patternChars_plain, IH; [reflexivity|].
    intros ->. vm_compute in E. discriminate.
Qed.

(** C2 fails on the code.  With the source ["A[Box]\nB[Box]"] and the old
    label ["Box"], [submitNodeUpdate("Square")] rewrites both nodes, not the
    first only: the pattern carries the [g] flag.  And when the commit comes
    from the overlay (double click, type ["Square"], press Enter), the old
    label has been overwritten by the draft before the pattern is built, so
    nothing is rewritten at all. *)
Theorem submitNodeUpdate_rewrites_every_match :
  code (submitNodeUpdate (js "Square") (editing twoBoxes (js "Box")))
  = js "A[Square]" ++ [LF] ++ js "B[Square]" /\
  code (overlayKeyDown (Enter false)
         (overlayChange (js "Square")
            (handleNodeDoubleClick (Some (js "flowchart-A-0", js "Box"))
               (mounted twoBoxes))))
  = twoBoxes.
Proof. split; vm_compute; reflexivity. Qed.

(** Toggling twice from a source whose first line is [graph TD]. *)
Lemma toggledCode_graph_TD (body : jsstring) :
  toggledCode LR (js "graph TD" ++ LF :: body) = js "graph LR" ++ LF :: body /\
  toggledCode TD (js "graph LR" ++ LF :: body) = js "graph TD" ++ LF :: body.
Proof. split; vm_compute; reflexivity. Qed.

Lemma splitLines_header (body : jsstring) :
  splitLines (js "graph TD" ++ LF :: body) = js "graph TD" :: splitLines body /\
  splitLines (js "graph LR" ++ LF :: body) = js "graph LR" :: splitLines body.
Proof. split; reflexivity. Qed.

(** C8: from a source whose first line is [graph TD], with the orientation
    state at [TD], the first toggle turns the header into [graph LR] and the
    second turns it back into [graph TD]; the orientation state and the
    source text are then what they were, and both times every line after
    the header is left as it is.  The specification's example is the body
    ["A-->B"]. *)
Theorem toggleOrientation_twice_round_trip (st : EditorState) (body : jsstring) :
  code st = js "graph TD" ++ LF :: body ->
  orientation st = TD ->
  onChange st = true ->
  let once := toggleOrientation st in
  let twice := toggleOrientation once in
  splitLines (code once) = js "graph LR" :: splitLines body /\
  splitLines (code twice) = js "graph TD" :: splitLines body /\
  orientation once = LR /\
  orientation twice = TD /\
  code twice = code st.
Proof.
  intros Hcode Hdir Hchange once twice.
  destruct (toggledCode_graph_TD body) as [H1 H2].
  destruct (splitLines_header body) as [S1 S2].
  assert (Honce : code once = js "graph LR" ++ LF :: body).
  { unfold once, toggleOrientation. rewrite Hchange, Hdir. simpl negb. cbv iota.
    rewrite code_codeChanged. simpl code. now rewrite Hcode, H1. }
  assert (Hdir1 : orientation once = LR).
  { unfold once, toggleOrientation. rewrite Hchange, Hdir. simpl negb. cbv iota.
    unfold codeChanged, renderDiagram.
    destruct (str_eqb _ _); [reflexivity|].
    now destruct (trim _). }
  assert (Hchange1 : onChange once = true).
  { unfold once, toggleOrientation. rewrite Hchange. simpl negb. cbv iota.
    unfold codeChanged, renderDiagram.
    destruct (str_eqb _ _); [exact Hchange|].
    destruct (trim _); exact Hchange. }
  assert (Htwice : code twice = js "graph TD" ++ LF :: body).
  { unfold twice, toggleOrientation. rewrite Hchange1, Hdir1. simpl negb. cbv iota.
    rewrite code_codeChanged. now rewrite Honce, H2. }
  assert (Hdir2 : orientation twice = TD).
  { unfold twice, toggleOrientation. rewrite Hchange1, Hdir1. simpl negb. cbv iota.
    unfold codeChanged, renderDiagram.
    destruct (str_eqb _ _); [reflexivity|].
    now destruct (trim _). }
  rewrite Honce, Htwice, Hcode, S1, S2. repeat split; assumption.
Qed.

Lemma toggleOrientation_twice_round_trip_witness :
  let st := mounted (js "graph TD" ++ [LF] ++ js "A-->B") in
  let once := toggleOrientation st in
  let twice := toggleOrientation once in
  splitLines (code once) = [js "graph LR"; js "A-->B"] /\
  splitLines (code twice) = [js "graph TD"; js "A-->B"] /\
  orientation once = LR /\
  orientation twice = TD /\
  code twice = js "graph TD" ++ [LF] ++ js "A-->B".
Proof.
  exact (toggleOrientation_twice_round_trip
           (mounted (js "graph TD" ++ [LF] ++ js "A-->B")) (js "A-->B")
           eq_refl eq_refl eq_refl).
Defined.

(* ================================================================== *)
(** * Zoom

    The clamp is proved on the doubles themselves.  The first lemmas are
    about the specification of binary64 rounding ([SpecFloat]): the number
    of digits of a mantissa, the right shift, and the result of rounding in
    the normal range. *)
(* ================================================================== *)

Section Binary64.

Local Open Scope Z_scope.

(* ---------- digits ---------- *)
Lemma digits2_spec (p : positive) :
  2 ^ (Zpos (digits2_pos p) - 1) <= Zpos p < 2 ^ Zpos (digits2_pos p).
Proof.
  induction p as [p IH|p IH|]; cbn [digits2_pos].
  - rewrite Pos2Z.inj_succ.
    replace (Z.succ (Zpos (digits2_pos p)) - 1) with (Z.succ (Zpos (digits2_pos p) - 1)) by lia.
    rewrite !Z.pow_succ_r by lia. lia.
  - rewrite Pos2Z.inj_succ.
    replace (Z.succ (Zpos (digits2_pos p)) - 1) with (Z.succ (Zpos (digits2_pos p) - 1)) by lia.
    rewrite !Z.pow_succ_r by lia. lia.
  - cbn. lia.
Qed.

Lemma digits2_unique (p : positive) (k : Z) :
  2 ^ (k - 1) <= Zpos p < 2 ^ k -> Zpos (digits2_pos p) = k.
Proof.
  intros [Hlo Hhi]. pose proof (digits2_spec p) as [Dlo Dhi].
  assert (0 < k).
  { destruct (Z.ltb_spec 0 k) as [|Hk]; [assumption|].
    assert (2 ^ k <= 2 ^ 0) by (apply Z.pow_le_mono_r; lia).
    change (2 ^ 0) with 1 in *. lia. }
  destruct (Z.lt_trichotomy (Zpos (digits2_pos p)) k) as [Hlt|[Heq|Hgt]];
    [|exact Heq|].
  - assert (2 ^ Zpos (digits2_pos p) <= 2 ^ (k - 1))
      by (apply Z.pow_le_mono_r; lia). lia.
  - assert (2 ^ k <= 2 ^ (Zpos (digits2_pos p) - 1))
      by (apply Z.pow_le_mono_r; lia). lia.
Qed.

Lemma digits2_gt (p : positive) (k : Z) :
  0 <= k -> 2 ^ k <= Zpos p -> k < Zpos (digits2_pos p).
Proof.
  intros Hk H. pose proof (digits2_spec p) as [_ Dhi].
  destruct (Z.ltb_spec k (Zpos (digits2_pos p))) as [|Hle]; [assumption|].
  assert (2 ^ Zpos (digits2_pos p) <= 2 ^ k) by (apply Z.pow_le_mono_r; lia).
  lia.
Qed.

Lemma digits2_le (p : positive) (k : Z) :
  0 <= k -> Zpos p < 2 ^ k -> Zpos (digits2_pos p) <= k.
Proof.
  intros Hk H. pose proof (digits2_spec p) as [Dlo _].
  destruct (Z.leb_spec (Zpos (digits2_pos p)) k) as [|Hlt]; [assumption|].
  assert (2 ^ k <= 2 ^ (Zpos (digits2_pos p) - 1))
    by (apply Z.pow_le_mono_r; lia).
  lia.
Qed.

(* ---------- shifting right ---------- *)
Lemma shr_m_shr_1 (mrs : shr_record) :
  0 <= shr_m mrs -> shr_m (shr_1 mrs) = shr_m mrs / 2.
Proof.
  destruct mrs as [m r s]. cbn [shr_m]. intros H.
  destruct m as [|[p|p|]|p]; cbn [shr_1 shr_m].
  - reflexivity.
  - apply Z.div_unique with (r := 1); lia.
  - apply Z.div_unique with (r := 0); lia.
  - reflexivity.
  - lia.
Qed.

Lemma shr_m_iter (p : positive) :
  forall mrs, 0 <= shr_m mrs ->
  shr_m (iter_pos shr_1 p mrs) = shr_m mrs / 2 ^ Zpos p.
Proof.
  induction p as [p IH|p IH|]; intros mrs H; cbn [iter_pos].
  - assert (H1 : 0 <= shr_m (shr_1 mrs))
      by (rewrite shr_m_shr_1 by assumption; apply Z.div_pos; lia).
    assert (H2 : 0 <= shr_m (iter_pos shr_1 p (shr_1 mrs)))
      by (rewrite IH by assumption; apply Z.div_pos; [assumption|apply Z.pow_pos_nonneg; lia]).
    rewrite IH, IH, shr_m_shr_1 by assumption.
    rewrite !Z.div_div by (try apply Z.pow_pos_nonneg; lia).
    f_equal. rewrite (Pos2Z.inj_xI p).
    replace (2 * Zpos p + 1) with (1 + Zpos p + Zpos p) by lia.
    rewrite Z.pow_add_r by lia. rewrite Z.pow_add_r by lia.
    change (2 ^ 1) with 2. lia.
  - assert (H2 : 0 <= shr_m (iter_pos shr_1 p mrs))
      by (rewrite IH by assumption; apply Z.div_pos; [assumption|apply Z.pow_pos_nonneg; lia]).
    rewrite IH, IH by assumption.
    rewrite !Z.div_div by (try apply Z.pow_pos_nonneg; lia).
    f_equal. rewrite (Pos2Z.inj_xO p).
    replace (2 * Zpos p) with (Zpos p + Zpos p) by lia.
    rewrite Z.pow_add_r by lia. reflexivity.
  - rewrite shr_m_shr_1 by assumption. reflexivity.
Qed.

Lemma round_nearest_even_bounds (m : Z) (l : location) :
  m <= round_nearest_even m l <= m + 1.
Proof.
  destruct l as [|[| |]]; cbn [round_nearest_even]; try lia.
  destruct (Z.even m); lia.
Qed.

Lemma shr_m_nonneg (m : Z) (e n : Z) (l : location) :
  0 <= m -> 0 <= shr_m (fst (shr (shr_record_of_loc m l) e n)).
Proof.
  intros H.
  assert (H0 : shr_m (shr_record_of_loc m l) = m)
    by (destruct l as [|[| |]]; reflexivity).
  destruct n as [|p|p]; cbn [shr fst]; try (rewrite H0; exact H).
  rewrite shr_m_iter by (rewrite H0; exact H). rewrite H0.
  apply Z.div_pos; [exact H|apply Z.pow_pos_nonneg; lia].
Qed.

(** Rounding a positive mantissa never gives NaN. *)
Lemma binary_round_aux_not_nan (sx : bool) (m : positive) (e : Z) (l : location) :
  binary_round_aux prec emax sx (Zpos m) e l <> S754_nan.
Proof.
  unfold binary_round_aux, shr_fexp.
  pose proof (shr_m_nonneg (Zpos m) e
                (fexp prec emax (Zdigits2 (Zpos m) + e) - e) l ltac:(lia)) as H1.
  destruct (shr (shr_record_of_loc (Zpos m) l) e _) as [mrs' e'].
  cbn [fst] in H1.
  pose proof (round_nearest_even_bounds (shr_m mrs') (loc_of_shr_record mrs')) as H2.
  set (m1 := round_nearest_even (shr_m mrs') (loc_of_shr_record mrs')) in *.
  pose proof (shr_m_nonneg m1 e'
                (fexp prec emax (Zdigits2 m1 + e') - e') loc_Exact ltac:(lia)) as H3.
  destruct (shr (shr_record_of_loc m1 loc_Exact) e' _) as [mrs'' e''].
  cbn [fst] in H3.
  destruct (shr_m mrs'') as [|p|p]; [discriminate| |lia].
  destruct (e'' <=? emax - prec); discriminate.
Qed.

Lemma fexp_normal (x : Z) : -1021 <= x -> fexp prec emax x = x - 53.
Proof.
  intros H. unfold fexp. change (SpecFloat.emin prec emax) with (-1074).
  change prec with 53. lia.
Qed.

Lemma shr_fexp_noshift (m : positive) (e : Z) :
  Zpos (digits2_pos m) = 53 -> -1074 <= e ->
  shr_fexp prec emax (Zpos m) e loc_Exact
  = (Build_shr_record (Zpos m) false false, e).
Proof.
  intros Hd He. unfold shr_fexp. cbn [Zdigits2]. rewrite Hd.
  rewrite fexp_normal by lia.
  replace (53 + e - 53 - e) with 0 by lia. reflexivity.
Qed.

Lemma binary_round_aux_normal (M : positive) (e : Z) :
  let d := Zpos (digits2_pos M) in
  53 <= d -> -1074 <= d + e - 53 -> d + e - 52 <= 971 ->
  exists m'' e'',
    binary_round_aux prec emax false (Zpos M) e loc_Exact
    = S754_finite false m'' e'' /\
    2 ^ 52 <= Zpos m'' < 2 ^ 53 /\
    ((e'' = d + e - 53 /\
      Zpos M / 2 ^ (d - 53) <= Zpos m'' <= Zpos M / 2 ^ (d - 53) + 1) \/
     (e'' = d + e - 52 /\ Zpos m'' = 2 ^ 52 /\
      Zpos M / 2 ^ (d - 53) + 1 = 2 ^ 53)) /\
    (d = 53 -> m'' = M /\ e'' = e).
Proof.
  intros d Hd Hlo Hhi.
  pose proof (digits2_spec M) as [Mlo Mhi]. fold d in Mlo, Mhi.
  unfold binary_round_aux.
  destruct (Z.eq_dec d 53) as [E|NE].
  - rewrite shr_fexp_noshift by (fold d; lia).
    cbn [shr_m loc_of_shr_record round_nearest_even].
    rewrite shr_fexp_noshift by (fold d; lia). cbn [shr_m].
    replace (e <=? emax - prec) with true
      by (symmetry; apply Z.leb_le; change emax with 1024; change prec with 53; lia).
    exists M, e. split; [reflexivity|]. rewrite E in *.
    change (53 - 53) with 0. change (2 ^ 0) with 1. rewrite Z.div_1_r.
    split; [lia|]. split; [left; lia|]. intros _. split; reflexivity.
  - unfold shr_fexp at 1. cbn [Zdigits2]. fold d.
    rewrite fexp_normal by lia.
    replace (d + e - 53 - e) with (d - 53) by lia.
    destruct (d - 53) as [|p|p] eqn:Ep; try lia.
    cbn [shr].
    set (mrs' := iter_pos shr_1 p (shr_record_of_loc (Zpos M) loc_Exact)).
    assert (Hq : shr_m mrs' = Zpos M / 2 ^ Zpos p).
    { unfold mrs'. rewrite shr_m_iter; cbn [shr_record_of_loc shr_m]; [reflexivity|lia]. }
    assert (Hp : 0 < 2 ^ Zpos p) by (apply Z.pow_pos_nonneg; lia).
    assert (Hd1 : d - 1 = 52 + Zpos p) by lia.
    assert (Hd2 : d = 53 + Zpos p) by lia.
    rewrite Hd1 in Mlo. rewrite Hd2 in Mhi.
    rewrite Z.pow_add_r in Mlo, Mhi by lia.
    assert (Hqlo : 2 ^ 52 <= shr_m mrs')
      by (rewrite Hq; apply Z.div_le_lower_bound; lia).
    assert (Hqhi : shr_m mrs' < 2 ^ 53)
      by (rewrite Hq; apply Z.div_lt_upper_bound; lia).
    pose proof (round_nearest_even_bounds (shr_m mrs') (loc_of_shr_record mrs')) as Hr.
    set (m1 := round_nearest_even (shr_m mrs') (loc_of_shr_record mrs')) in *.
    rewrite <- Hq.
    destruct m1 as [|P1|P1] eqn:Em1; try lia.
    destruct (Z.ltb_spec (Zpos P1) (2 ^ 53)) as [Hlt|Hge].
    + assert (HdP : Zpos (digits2_pos P1) = 53)
        by (apply digits2_unique; change (53 - 1) with 52; lia).
      rewrite shr_fexp_noshift by lia. cbn [shr_m].
      replace (e + Zpos p <=? emax - prec) with true
        by (symmetry; apply Z.leb_le; change emax with 1024; change prec with 53; lia).
      exists P1, (e + Zpos p). split; [reflexivity|]. split; [lia|].
      split; [left; lia|]. intros; lia.
    + assert (HP1 : Zpos P1 = 2 ^ 53) by lia.
      change (2 ^ 53) with (Zpos 9007199254740992) in HP1.
      injection HP1 as ->.
      unfold shr_fexp.
      change (Zdigits2 (Zpos 9007199254740992)) with 54.
      rewrite fexp_normal by lia.
      replace (54 + (e + Zpos p) - 53 - (e + Zpos p)) with 1 by lia.
      cbn [shr shr_record_of_loc iter_pos shr_1 shr_m].
      replace (e + Zpos p + 1 <=? emax - prec) with true
        by (symmetry; apply Z.leb_le; change emax with 1024; change prec with 53; lia).
      eexists _, _. split; [reflexivity|].
      change (Zpos 4503599627370496) with (2 ^ 52).
      split; [lia|]. split; [right; lia|]. intros; lia.
Qed.

Lemma iter_xO (k : positive) (m : positive) :
  Zpos (Pos.iter xO m k) = Zpos m * 2 ^ Zpos k.
Proof.
  revert m. induction k as [k IH|k IH|]; intros m; cbn [Pos.iter].
  - rewrite Pos2Z.inj_xO, IH, IH, (Pos2Z.inj_xI k).
    replace (2 * Zpos k + 1) with (1 + Zpos k + Zpos k) by lia.
    rewrite Z.pow_add_r by lia. rewrite Z.pow_add_r by lia.
    change (2 ^ 1) with 2. lia.
  - rewrite IH, IH, (Pos2Z.inj_xO k).
    replace (2 * Zpos k) with (Zpos k + Zpos k) by lia.
    rewrite Z.pow_add_r by lia. lia.
  - rewrite Pos2Z.inj_xO. change (2 ^ 1) with 2. lia.
Qed.

(** Rounding to binary64 in the normal range. *)
Lemma binary_round_normal (M : positive) (e : Z) :
  let d := Zpos (digits2_pos M) in
  -1074 <= d + e - 53 -> d + e - 52 <= 971 ->
  exists m'' e'',
    binary_round prec emax false M e = S754_finite false m'' e'' /\
    2 ^ 52 <= Zpos m'' < 2 ^ 53 /\
    ((d <= 53 /\ e'' = d + e - 53) \/
     (53 < d /\ e'' = d + e - 53 /\
      Zpos M / 2 ^ (d - 53) <= Zpos m'' <= Zpos M / 2 ^ (d - 53) + 1) \/
     (53 < d /\ e'' = d + e - 52 /\ Zpos m'' = 2 ^ 52 /\
      Zpos M / 2 ^ (d - 53) + 1 = 2 ^ 53)).
Proof.
  intros d Hlo Hhi.
  pose proof (digits2_spec M) as [Mlo Mhi]. fold d in Mlo, Mhi.
  unfold binary_round. fold d. rewrite fexp_normal by lia.
  unfold shl_align.
  replace (d + e - 53 - e) with (d - 53) by lia.
  set (n := d - 53) at 1. assert (Ep : n = d - 53) by reflexivity.
  clearbody n. destruct n as [|p|p].
  - destruct (binary_round_aux_normal M e) as [m'' [e'' [H [Hm [_ Hx]]]]];
      try (fold d; lia).
    exists m'', e''. split; [exact H|]. split; [exact Hm|].
    left. fold d in Hx. destruct Hx as [_ ->]; lia.
  - destruct (binary_round_aux_normal M e) as [m'' [e'' [H [Hm [Hc _]]]]];
      try (fold d; lia).
    exists m'', e''. split; [exact H|]. split; [exact Hm|].
    fold d in Hc. right. destruct Hc as [Hc|Hc]; [left|right]; lia.
  - set (mz := Pos.iter xO M p).
    assert (Hmz : Zpos mz = Zpos M * 2 ^ Zpos p) by apply iter_xO.
    assert (Hp : 0 < 2 ^ Zpos p) by (apply Z.pow_pos_nonneg; lia).
    assert (Hdz : Zpos (digits2_pos mz) = 53).
    { apply digits2_unique. rewrite Hmz. change (53 - 1) with 52.
      assert (E52 : 2 ^ 52 = 2 ^ (d - 1) * 2 ^ Zpos p)
        by (rewrite <- Z.pow_add_r by lia; f_equal; lia).
      assert (E53 : 2 ^ 53 = 2 ^ d * 2 ^ Zpos p)
        by (rewrite <- Z.pow_add_r by lia; f_equal; lia).
      rewrite E52, E53. split.
      - apply Z.mul_le_mono_nonneg_r; lia.
      - apply Z.mul_lt_mono_pos_r; lia. }
    destruct (binary_round_aux_normal mz (d + e - 53)) as [m'' [e'' [H [Hm [_ Hx]]]]];
      try (rewrite Hdz; lia).
    exists m'', e''. split; [exact H|]. split; [exact Hm|].
    left. destruct (Hx Hdz) as [_ ->]. lia.
Qed.

Lemma SFcompare_nan_r (x : spec_float) : SFcompare x S754_nan = None.
Proof. now destruct x. Qed.

Lemma SFcompare_antisym (x y : spec_float) :
  SFcompare y x = option_map CompOpp (SFcompare x y).
Proof.
  destruct x as [sx|sx| |sx mx ex], y as [sy|sy| |sy my ey]; cbn;
    try reflexivity;
    try (destruct sx; reflexivity); try (destruct sy; reflexivity);
    try (destruct sx, sy; reflexivity).
  destruct sx, sy; cbn; try reflexivity; f_equal;
    rewrite (Z.compare_antisym ex ey);
    destruct (ex ?= ey); cbn; try reflexivity;
    rewrite (Pos.compare_cont_antisym mx my Eq); cbn [CompOpp];
    now rewrite ?CompOpp_involutive.
Qed.

Lemma is_nan_Prim2SF (x : float) :
  is_nan x = true <-> Prim2SF x = S754_nan.
Proof.
  split.
  - intros H. unfold Prim2SF. now rewrite H.
  - intros H. unfold is_nan. rewrite eqb_spec, H. reflexivity.
Qed.

Lemma not_nan_Prim2SF (x : float) :
  is_nan x = false <-> Prim2SF x <> S754_nan.
Proof.
  rewrite <- is_nan_Prim2SF. destruct (is_nan x); split; congruence.
Qed.

Lemma leb_not_nan (a b : float) :
  (a <=? b)%float = true -> is_nan a = false /\ is_nan b = false.
Proof.
  rewrite leb_spec, !not_nan_Prim2SF. unfold SFleb. intros H.
  split; intros E; rewrite E in H; [|rewrite SFcompare_nan_r in H]; discriminate.
Qed.

Lemma ltb_leb (a b : float) : (a <? b)%float = true -> (a <=? b)%float = true.
Proof.
  rewrite ltb_spec, leb_spec. unfold SFltb, SFleb.
  now destruct (SFcompare _ _) as [[| |]|].
Qed.

Lemma leb_total (a b : float) :
  is_nan a = false -> is_nan b = false ->
  (b <? a)%float = false -> (a <=? b)%float = true.
Proof.
  rewrite !not_nan_Prim2SF, ltb_spec, leb_spec. unfold SFltb, SFleb.
  rewrite (SFcompare_antisym (Prim2SF a) (Prim2SF b)).
  intros Ha Hb.
  destruct (SFcompare (Prim2SF a) (Prim2SF b)) as [[| |]|] eqn:E; cbn;
    try reflexivity; try discriminate.
  intros _. exfalso.
  destruct (Prim2SF a) as [sx|sx| |sx mx ex], (Prim2SF b) as [sy|sy| |sy my ey];
    cbn in E; try discriminate; try (now apply Ha); try (now apply Hb).
Qed.

Lemma SFleb_pos (m1 : positive) (e1 : Z) (m2 : positive) (e2 : Z) :
  SFleb (S754_finite false m1 e1) (S754_finite false m2 e2) = true <->
  e1 < e2 \/ (e1 = e2 /\ Zpos m1 <= Zpos m2).
Proof.
  unfold SFleb, SFcompare.
  destruct (Z.compare_spec e1 e2) as [E|E|E].
  - rewrite Pos.compare_cont_spec. cbn [Pos.switch_Eq].
    destruct (Pos.compare_spec m1 m2) as [M|M|M]; split; intros H;
      try reflexivity; try discriminate; try lia.
  - split; [lia|reflexivity].
  - split; [discriminate|lia].
Qed.

Lemma Prim2SF_0_1 : Prim2SF lit_0_1 = S754_finite false mantissa_0_1 (-56).
Proof. vm_compute. reflexivity. Qed.

Lemma Prim2SF_five : Prim2SF 5%float = S754_finite false mantissa_5 (-50).
Proof. vm_compute. reflexivity. Qed.

(** The floats between 0.1 and 5. *)
Lemma between_spec (s : float) :
  (lit_0_1 <=? s)%float = true -> (s <=? 5)%float = true ->
  exists ms es,
    Prim2SF s = S754_finite false ms es /\
    2 ^ 52 <= Zpos ms < 2 ^ 53 /\
    (-56 < es \/ (es = -56 /\ Zpos mantissa_0_1 <= Zpos ms)) /\
    (es < -50 \/ (es = -50 /\ Zpos ms <= Zpos mantissa_5)).
Proof.
  rewrite !leb_spec, Prim2SF_0_1, Prim2SF_five.
  pose proof (Prim2SF_valid s) as Hv.
  destruct (Prim2SF s) as [sg|sg| |sg ms es]; try discriminate.
  - destruct sg; discriminate.
  - destruct sg; [discriminate|].
    rewrite !SFleb_pos. intros Hlo Hhi.
    exists ms, es. split; [reflexivity|]. split; [|split; [lia|assumption]].
    cbn [valid_binary] in Hv. unfold bounded, canonical_mantissa in Hv.
    apply andb_true_iff in Hv. destruct Hv as [Hc _].
    apply Z.eqb_eq in Hc. rewrite fexp_normal in Hc
      by (pose proof (Pos2Z.is_pos (digits2_pos ms)); lia).
    pose proof (digits2_spec ms) as Hd.
    replace (Zpos (digits2_pos ms)) with 53 in Hd by lia.
    exact Hd.
Qed.

Lemma shl_align_fst (m : positive) (e e' : Z) :
  e' <= e -> Zpos (fst (shl_align m e e')) = Zpos m * 2 ^ (e - e').
Proof.
  intros H. unfold shl_align.
  destruct (e' - e) as [|p|p] eqn:E; cbn [fst]; try lia.
  - replace (e - e') with 0 by lia. change (2 ^ 0) with 1. lia.
  - rewrite iter_xO. f_equal. f_equal. lia.
Qed.

Lemma add_0_1_ge (s : float) :
  (lit_0_1 <=? s)%float = true -> (s <=? 5)%float = true ->
  (lit_0_1 <=? s + lit_0_1)%float = true.
Proof.
  intros Hlo Hhi.
  destruct (between_spec s Hlo Hhi) as [ms [es [Es [Hms [Hl Hh]]]]].
  rewrite leb_spec, add_spec, Es, Prim2SF_0_1.
  unfold SF64add, SFadd. cbn [cond_Zopp].
  replace (Z.min es (-56)) with (-56) by lia.
  pose proof (shl_align_fst ms es (-56) ltac:(lia)) as Ha.
  pose proof (shl_align_fst mantissa_0_1 (-56) (-56) ltac:(lia)) as Hb.
  change (-56 - -56) with 0 in Hb. change (2 ^ 0) with 1 in Hb.
  set (a := fst (shl_align ms es (-56))) in *.
  set (b := fst (shl_align mantissa_0_1 (-56) (-56))) in *.
  clearbody a b.
  assert (Hes : es = -56 \/ es = -55 \/ es = -54 \/ es = -53 \/ es = -52 \/
                es = -51 \/ es = -50) by lia.
  assert (Hsum : 2 ^ 53 <= Zpos a + Zpos b < 2 ^ 60).
  { unfold mantissa_0_1, mantissa_5 in *.
    repeat (destruct Hes as [->|Hes]); try subst es; cbn in Ha; lia. }
  destruct (Zpos a + Zpos b) as [|M|M] eqn:EM; try lia.
  cbn [binary_normalize].
  pose proof (digits2_gt M 53 ltac:(lia) ltac:(lia)) as Hd1.
  pose proof (digits2_le M 60 ltac:(lia) ltac:(lia)) as Hd2.
  destruct (binary_round_normal M (-56)) as [m'' [e'' [-> [Hm Hc]]]]; try lia.
  apply SFleb_pos. left. lia.
Qed.

Lemma sub_0_1_le (s : float) :
  (lit_0_1 <=? s)%float = true -> (s <=? 5)%float = true ->
  (s - lit_0_1 <=? 5)%float = true.
Proof.
  intros Hlo Hhi.
  destruct (between_spec s Hlo Hhi) as [ms [es [Es [Hms [Hl Hh]]]]].
  rewrite leb_spec, sub_spec, Es, Prim2SF_0_1, Prim2SF_five.
  unfold SF64sub, SFsub. cbn [cond_Zopp].
  replace (Z.min es (-56)) with (-56) by lia.
  pose proof (shl_align_fst ms es (-56) ltac:(lia)) as Ha.
  pose proof (shl_align_fst mantissa_0_1 (-56) (-56) ltac:(lia)) as Hb.
  change (-56 - -56) with 0 in Hb. change (2 ^ 0) with 1 in Hb.
  set (a := fst (shl_align ms es (-56))) in *.
  set (b := fst (shl_align mantissa_0_1 (-56) (-56))) in *.
  clearbody a b.
  assert (Hes : es = -56 \/ es = -55 \/ es = -54 \/ es = -53 \/ es = -52 \/
                es = -51 \/ es = -50) by lia.
  destruct (Zpos a - Zpos b) as [|M|M] eqn:EM; cbn [binary_normalize].
  - reflexivity.
  - set (d := Zpos (digits2_pos M)).
    pose proof (digits2_spec M) as [Dlo Dhi]. fold d in Dlo, Dhi.
    assert (Hd0 : 0 < d) by (unfold d; lia).
    assert (HM : Zpos M < 2 ^ 59).
    { unfold mantissa_0_1, mantissa_5 in *.
      repeat (destruct Hes as [->|Hes]); try subst es; cbn in Ha; lia. }
    pose proof (digits2_le M 59 ltac:(lia) HM) as Hd59. fold d in Hd59.
    assert (Hq : d <= 58 \/ (d = 59 /\ Zpos M / 2 ^ (d - 53) + 1 <= Zpos mantissa_5)).
    { destruct (Z.leb_spec d 58) as [|Hgt]; [left; assumption|right].
      assert (Ed : d = 59) by lia. split; [exact Ed|].
      rewrite Ed in *. change (59 - 53) with 6. change (59 - 1) with 58 in Dlo.
      assert (Zpos M / 2 ^ 6 < Zpos mantissa_5); [|lia].
      apply Z.div_lt_upper_bound; [lia|].
      unfold mantissa_0_1, mantissa_5 in *.
      repeat (destruct Hes as [->|Hes]); try subst es; cbn in Ha; lia. }
    destruct (binary_round_normal M (-56)) as [m'' [e'' [-> [Hm Hc]]]];
      fold d; try lia.
    fold d in Hc. apply SFleb_pos. unfold mantissa_5 in *.
    destruct Hc as [Hc|[Hc|Hc]]; lia.
  - exfalso. unfold mantissa_0_1, mantissa_5 in *.
    repeat (destruct Hes as [->|Hes]); try subst es; cbn in Ha; lia.
Qed.

Lemma binary_normalize_not_nan (m e : Z) (sz : bool) :
  binary_normalize prec emax m e sz <> S754_nan.
Proof.
  destruct m as [|p|p]; cbn [binary_normalize]; [discriminate| |];
    unfold binary_round; destruct (shl_align _ _ _) as [mz ez];
    apply binary_round_aux_not_nan.
Qed.

Lemma SFmul_not_nan (x : spec_float) (sy : bool) (my : positive) (ey : Z) :
  x <> S754_nan -> SF64mul x (S754_finite sy my ey) <> S754_nan.
Proof.
  intros H. destruct x as [sx|sx| |sx mx ex]; cbn; try discriminate.
  - now apply H.
  - apply binary_round_aux_not_nan.
Qed.

Lemma SFsub_not_nan (sx : bool) (mx : positive) (ex : Z) (y : spec_float) :
  y <> S754_nan -> SF64sub (S754_finite sx mx ex) y <> S754_nan.
Proof.
  intros H. destruct y as [sy|sy| |sy my ey]; unfold SF64sub, SFsub;
    try discriminate.
  - now apply H.
  - apply binary_normalize_not_nan.
Qed.

Lemma wheel_not_nan (s deltaY : float) :
  (lit_0_1 <=? s)%float = true -> (s <=? 5)%float = true ->
  is_nan deltaY = false ->
  is_nan (s - deltaY * lit_0_001) = false.
Proof.
  intros Hlo Hhi Hd.
  destruct (between_spec s Hlo Hhi) as [ms [es [Es _]]].
  apply not_nan_Prim2SF. rewrite sub_spec, mul_spec, Es.
  apply SFsub_not_nan.
  replace (Prim2SF lit_0_001) with (S754_finite false 4611686018427388 (-62))
    by (vm_compute; reflexivity).
  apply SFmul_not_nan. now apply not_nan_Prim2SF.
Qed.

Lemma max_0_1_inRange (y : float) :
  (y <=? 5)%float = true -> inRange (Math_max lit_0_1 y) = true.
Proof.
  intros Hy. destruct (leb_not_nan _ _ Hy) as [Hn _].
  unfold Math_max. change (is_nan lit_0_1) with false. rewrite Hn. cbn [orb].
  destruct (lit_0_1 <? y)%float eqn:E1.
  - unfold inRange. now rewrite (ltb_leb _ _ E1), Hy.
  - destruct (y <? lit_0_1)%float; reflexivity.
Qed.

Lemma min_five_le (x : float) :
  is_nan x = false ->
  (Math_min 5 x <=? 5)%float = true /\
  (Math_min 5 x = 5%float \/ Math_min 5 x = x).
Proof.
  intros Hn. unfold Math_min. change (is_nan 5) with false. rewrite Hn.
  cbn [orb]. destruct (5 <? x)%float eqn:E1.
  - split; [reflexivity|now left].
  - destruct (x <? 5)%float eqn:E2.
    + split; [now apply ltb_leb|now right].
    + change (classify 5) with PNormal. cbv iota.
      split; [|now right]. now apply leb_total.
Qed.

(** Every handler keeps the scale in range.  The zoom-out button clamps
    from below only, and the zoom-in button from above only: the other
    bound holds because adding or subtracting [0.1] and rounding moves a
    scale in range away from it. *)
Lemma zoom_inRange (s : float) (op : zoom_op) :
  wheelEvent op -> inRange s = true -> inRange (zoom s op) = true.
Proof.
  intros Hop Hs. unfold inRange in Hs. apply andb_true_iff in Hs.
  destruct Hs as [Hlo Hhi].
  destruct op as [| | |[|] deltaY]; cbn [zoom].
  - apply max_0_1_inRange. now apply sub_0_1_le.
  - pose proof (add_0_1_ge s Hlo Hhi) as Hx.
    destruct (leb_not_nan _ _ Hx) as [_ Hn].
    destruct (min_five_le _ Hn) as [Hle [E|E]]; rewrite E in *.
    + reflexivity.
    + unfold inRange. now rewrite Hx, Hle.
  - reflexivity.
  - pose proof (wheel_not_nan s deltaY Hlo Hhi Hop) as Hn.
    apply max_0_1_inRange. exact (proj1 (min_five_le _ Hn)).
  - unfold inRange. now rewrite Hlo, Hhi.
Qed.

Lemma zoomAll_inRange (ops : list zoom_op) (s : float) :
  Forall wheelEvent ops -> inRange s = true -> inRange (zoomAll ops s) = true.
Proof.
  intros Hops. revert s. induction Hops as [|op ops Hop _ IH]; intros s H;
    [exact H|].
  apply (IH (zoom s op)), zoom_inRange; assumption.
Qed.

End Binary64.

(** C9: whatever sequence of zoom-out, zoom-in, reset and wheel events
    (with or without the modifier key) follows the initial scale 1, the
    scale, a double, stays within [0.1, 5].  The [deltaY] of a wheel event
    is any double but NaN, the infinities included: the DOM delivers it as
    a WebIDL [double]; the handler itself has no guard, and [Math.min] and
    [Math.max] would hand a NaN through. *)
Theorem zoom_scale_stays_clamped (ops : list zoom_op) :
  Forall wheelEvent ops ->
  (lit_0_1 <=? zoomAll ops 1)%float = true /\
  (zoomAll ops 1 <=? 5)%float = true.
Proof.
  intros Hops. apply andb_true_iff.
  exact (zoomAll_inRange ops 1%float Hops eq_refl).
Qed.

(** Runs of the handlers: a hundred clicks either way from scale 1 stop at
    the bounds, and so does the largest wheel step either way. *)
Lemma zoom_on_binary64 :
  zoomAll (repeat ZoomIn 100) 1%float = 5%float /\
  zoomAll (repeat ZoomOut 100) 1%float = lit_0_1 /\
  zoom 1%float (Wheel true (-0x1.fffffffffffffp1023)%float) = 5%float /\
  zoom 1%float (Wheel true 0x1.fffffffffffffp1023%float) = lit_0_1 /\
  zoom 1%float (Wheel true infinity) = lit_0_1.
Proof. vm_compute. repeat split. Qed.

(** A wheel notch in, a wheel step beyond every double, two clicks on
    zoom-out, a reset, a wheel event without the modifier key and a click
    on zoom-in. *)
Lemma zoom_scale_stays_clamped_witness :
  let ops := [Wheel true (-1000)%float; Wheel true infinity; ZoomOut; ZoomOut;
              ResetView; Wheel false 3%float; ZoomIn] in
  (lit_0_1 <=? zoomAll ops 1)%float = true /\
  (zoomAll ops 1 <=? 5)%float = true.
Proof.
  apply (zoom_scale_stays_clamped
           [Wheel true (-1000)%float; Wheel true infinity; ZoomOut; ZoomOut;
            ResetView; Wheel false 3%float; ZoomIn]).
  repeat constructor.
Defined.

(* ================================================================== *)
(** * Loading elements into the canvas *)
(* ================================================================== *)

Lemma lookup_setProp (k : jsstring) (v : value) (o : object) :
  lookup k (setProp k v o) = v.
Proof.
  induction o as [|[k' v'] o IH]; simpl.
  - now rewrite str_eqb_refl.
  - destruct (str_eqb k k') eqn:E; simpl; now rewrite E.
Qed.

Lemma blackOrUnset_patchStroke (el : object) :
  blackOrUnset (patchStroke el) = false.
Proof.
  unfold patchStroke. destruct (blackOrUnset el) eqn:E; [|exact E].
  unfold blackOrUnset. now rewrite lookup_setProp.
Qed.

Lemma patchStroke_fixed (el : object) :
  blackOrUnset el = false -> patchStroke el = el.
Proof. intros H. unfold patchStroke. now rewrite H. Qed.

Lemma patchStroke_idempotent (el : object) :
  patchStroke (patchStroke el) = patchStroke el.
Proof. apply patchStroke_fixed, blackOrUnset_patchStroke. Qed.

Lemma spread_object (l : list object) : map spread (map VObject l) = l.
Proof. induction l as [|o l IH]; simpl; [reflexivity|now rewrite IH]. Qed.

(** C7: the colour patch is idempotent.  In the dark theme one pass leaves
    no element whose stroke colour is unset (falsy), ["#000000"] or
    ["black"], so a second pass changes nothing, also when the patched list
    goes through the whole pass-through branch again; the light theme's
    patch is the identity; and an element whose stroke is set and not black
    comes out of the dark patch as it went in, at the same index. *)
Theorem colorPatch_idempotent (isDarkMode : bool) (finalElements : list object) :
  colorPatch isDarkMode (colorPatch isDarkMode finalElements)
  = colorPatch isDarkMode finalElements /\
  passThrough isDarkMode (map VObject (colorPatch isDarkMode finalElements))
  = colorPatch isDarkMode finalElements /\
  Forall (fun el => blackOrUnset el = false) (colorPatch true finalElements) /\
  colorPatch false finalElements = finalElements /\
  (forall i el, nth_error finalElements i = Some el ->
                blackOrUnset el = false ->
                nth_error (colorPatch true finalElements) i = Some el).
Proof.
  assert (Hidem : colorPatch isDarkMode (colorPatch isDarkMode finalElements)
                  = colorPatch isDarkMode finalElements).
  { destruct isDarkMode; simpl; [|reflexivity].
    rewrite map_map. apply map_ext, patchStroke_idempotent. }
  split; [exact Hidem|]. split; [|split; [|split]].
  - unfold passThrough. now rewrite spread_object.
  - simpl. apply Forall_forall. intros el Hin.
    apply in_map_iff in Hin. destruct Hin as [el0 [<- _]].
    apply blackOrUnset_patchStroke.
  - reflexivity.
  - intros i el Hi Hel. simpl.
    rewrite nth_error_map, Hi. simpl. now rewrite (patchStroke_fixed el Hel).
Qed.

Lemma isAlreadyExcalidraw_true (elements : list value) :
  isAlreadyExcalidraw elements = Some true ->
  Exists (fun el => hasIdAndType el = Some true) elements.
Proof.
  unfold isAlreadyExcalidraw.
  induction elements as [|el rest IH]; simpl; [discriminate|].
  destruct (hasIdAndType el) as [[|]|] eqn:E; try discriminate.
  - intros _. now apply Exists_cons_hd.
  - intros H. apply Exists_cons_tl, IH, H.
Qed.

Lemma isAlreadyExcalidraw_false (elements : list value) :
  isAlreadyExcalidraw elements = Some false ->
  Forall (fun el => hasIdAndType el = Some false) elements.
Proof.
  unfold isAlreadyExcalidraw.
  induction elements as [|el rest IH]; simpl; [constructor|].
  destruct (hasIdAndType el) as [[|]|] eqn:E; try discriminate.
  intros H. constructor; [exact E|exact (IH H)].
Qed.

Section DescriptorFacts.

Variable coerce : value -> float.
Variable now : nat -> N.
Variable isDarkMode : bool.

Lemma ToNumber_defined (v : value) :
  toPrimitiveThrows v = false -> exists x, ToNumber coerce v = Some x.
Proof.
  intros H. destruct v as [| |[|]| | | |]; cbn [ToNumber];
    try rewrite H; eexists; reflexivity.
Qed.

Lemma ToNumber_throws (v : value) :
  toPrimitiveThrows v = true -> ToNumber coerce v = None.
Proof.
  intros H. destruct v as [| |[|]| | | |]; try discriminate H;
    cbn [ToNumber]; now rewrite H.
Qed.

Lemma minus_defined (a b : value) :
  toPrimitiveThrows a = false -> toPrimitiveThrows b = false ->
  exists r, minus coerce a b = Some r.
Proof.
  intros Ha Hb. unfold minus.
  destruct (ToNumber_defined a Ha) as [x ->].
  destruct (ToNumber_defined b Hb) as [y ->]. eexists; reflexivity.
Qed.

Lemma minus_throws (a b : value) :
  toPrimitiveThrows a || toPrimitiveThrows b = true ->
  minus coerce a b = None.
Proof.
  intros H. unfold minus. apply orb_true_iff in H. destruct H as [H|H].
  - now rewrite (ToNumber_throws a H).
  - rewrite (ToNumber_throws b H). now destruct (ToNumber coerce a).
Qed.

Lemma isString_eq (lit : jsstring) (v : value) :
  isString lit v = true -> v = VString lit.
Proof.
  destruct v; try discriminate. cbn. intros H. f_equal. now apply str_eqb_eq.
Qed.

(** An element on which [el.id && el.type] can be evaluated is one that
    the per-kind mapping accepts, unless it is an arrow with a coordinate
    that has no primitive value. *)
Lemma mapDescriptor_defined (index : nat) (el : value) (b : bool) :
  hasIdAndType el = Some b -> throwingArrow el = false ->
  exists r, mapDescriptor coerce now isDarkMode index el = Some r.
Proof.
  intros H Harrow. unfold mapDescriptor. unfold throwingArrow in Harrow.
  destruct (getProp el (js "type")) as [ty|] eqn:E.
  - cbv zeta.
    destruct (isString (js "rectangle") ty || isString (js "ellipse") ty);
      [eexists; reflexivity|].
    destruct (isString (js "arrow") ty).
    + cbn [andb existsb arrowOperands] in Harrow. unfold num.
      repeat (apply orb_false_iff in Harrow;
              let H1 := fresh "Hop" in destruct Harrow as [H1 Harrow]).
      destruct (minus_defined _ _ Hop Hop0) as [dx ->].
      destruct (minus_defined _ _ Hop1 Hop2) as [dy ->].
      eexists; reflexivity.
    + destruct (isString (js "text") ty); eexists; reflexivity.
  - destruct el; simpl in *; discriminate.
Qed.

(** An arrow with such a coordinate makes the mapping throw. *)
Lemma mapDescriptor_throwingArrow (index : nat) (el : value) :
  throwingArrow el = true ->
  mapDescriptor coerce now isDarkMode index el = None.
Proof.
  unfold throwingArrow, mapDescriptor.
  destruct (getProp el (js "type")) as [ty|] eqn:E; [|reflexivity].
  intros H. apply andb_true_iff in H. destruct H as [Hty Hops].
  apply isString_eq in Hty. subst ty. cbv zeta.
  change (isString (js "rectangle") (VString (js "arrow")) ||
          isString (js "ellipse") (VString (js "arrow"))) with false.
  change (isString (js "arrow") (VString (js "arrow"))) with true.
  cbv iota. unfold num. cbn [arrowOperands existsb] in Hops.
  rewrite orb_false_r, !orb_assoc in Hops.
  rewrite <- orb_assoc in Hops.
  apply orb_true_iff in Hops. destruct Hops as [Hops|Hops].
  - now rewrite (minus_throws _ _ Hops).
  - rewrite (minus_throws _ _ Hops). now destruct (minus _ _ _).
Qed.

Lemma mapDescriptors_defined (elements : list value) (index : nat) :
  Forall (fun el => hasIdAndType el = Some false) elements ->
  Forall (fun el => throwingArrow el = false) elements ->
  exists l, mapDescriptors coerce now isDarkMode index elements = Some l.
Proof.
  intros H Harrow. revert index.
  induction H as [|el rest Hel _ IH]; intros index.
  - now exists [].
  - inversion Harrow as [|el' rest' Ha Hrest]; subst. simpl.
    destruct (mapDescriptor_defined index el false Hel Ha) as [r ->].
    destruct (IH Hrest (S index)) as [l ->]. eexists; reflexivity.
Qed.

Lemma mapDescriptors_throwingArrow (elements : list value) (index : nat) :
  Exists (fun el => throwingArrow el = true) elements ->
  mapDescriptors coerce now isDarkMode index elements = None.
Proof.
  intros H. revert index. induction H as [el rest Hel|el rest _ IH];
    intros index; cbn [mapDescriptors].
  - now rewrite (mapDescriptor_throwingArrow index el Hel).
  - rewrite (IH (S index)).
    now destruct (mapDescriptor coerce now isDarkMode index el).
Qed.

End DescriptorFacts.

(** C3, as the specification states it, fails: of these two items only the
    first carries an id, and yet the list is taken as Excalidraw elements:
    both items are passed through with the colour patch, and the second is
    never mapped as a shape descriptor. *)
Lemma one_item_with_id_selects_passThrough :
  hasIdAndType describedBox = Some false /\
  isAlreadyExcalidraw [convertedBox; describedBox] = Some true /\
  loadElements sampleCoerce sampleClock true true
               (VArray [convertedBox; describedBox])
  = FinalElements
      [ [ (js "id", VString (js "A")); (js "type", VString (js "rectangle"));
          (js "strokeColor", VString (js "#e2e8f0")) ];
        [ (js "type", VString (js "rectangle")); (js "label", VString (js "B"));
          (js "strokeColor", VString (js "#e2e8f0")) ] ] /\
  option_map (map (lookup (js "width")))
             (mapDescriptors sampleCoerce sampleClock true 0
                             [convertedBox; describedBox])
  = Some [VNumber 100; VNumber 100].
Proof. vm_compute. repeat split. Qed.

(** C3 (amended): when [el.id && el.type] can be evaluated on the items
    (none of those looked at is [null] or [undefined]), the list is passed
    through with the colour patch if and only if at least one item has a
    truthy id and a truthy kind; when no item has both, every item is
    mapped per kind as a shape descriptor: the mapping goes through unless
    an arrow has a coordinate that has no primitive value, and then it
    throws. *)
Theorem passThrough_iff_some_item_has_id_and_type
  (coerce : value -> float) (now : nat -> N) (isDarkMode : bool)
  (elements : list value) (b : bool) :
  isAlreadyExcalidraw elements = Some b ->
  (b = true <-> Exists (fun el => hasIdAndType el = Some true) elements) /\
  (b = true ->
   loadElements coerce now isDarkMode true (VArray elements)
   = FinalElements (passThrough isDarkMode elements)) /\
  (b = false ->
   (Forall (fun el => throwingArrow el = false) elements ->
    exists l, mapDescriptors coerce now isDarkMode 0 elements = Some l /\
              loadElements coerce now isDarkMode true (VArray elements)
              = FinalElements l) /\
   (Exists (fun el => throwingArrow el = true) elements ->
    loadElements coerce now isDarkMode true (VArray elements) = TypeError)).
Proof.
  intros H. split; [|split].
  - split.
    + intros ->. now apply isAlreadyExcalidraw_true.
    + intros Hex. destruct b; [reflexivity|].
      apply isAlreadyExcalidraw_false in H.
      apply Exists_exists in Hex. destruct Hex as [el [Hin Hel]].
      rewrite Forall_forall in H. specialize (H el Hin). congruence.
  - intros ->. unfold loadElements. simpl. now rewrite H.
  - intros ->. split.
    + intros Harrow. unfold loadElements. simpl. rewrite H.
      destruct (mapDescriptors_defined coerce now isDarkMode elements 0
                  (isAlreadyExcalidraw_false elements H) Harrow) as [l Hl].
      exists l. now rewrite Hl.
    + intros Harrow. unfold loadElements. simpl. rewrite H.
      now rewrite (mapDescriptors_throwingArrow coerce now isDarkMode
                     elements 0 Harrow).
Qed.

Lemma passThrough_iff_some_item_has_id_and_type_witness :
  (true = true <->
   Exists (fun el => hasIdAndType el = Some true) [describedBox; convertedBox]) /\
  (true = true ->
   loadElements sampleCoerce sampleClock true true
                (VArray [describedBox; convertedBox])
   = FinalElements (passThrough true [describedBox; convertedBox])) /\
  (true = false ->
   (Forall (fun el => throwingArrow el = false) [describedBox; convertedBox] ->
    exists l, mapDescriptors sampleCoerce sampleClock true 0
                             [describedBox; convertedBox] = Some l /\
              loadElements sampleCoerce sampleClock true true
                           (VArray [describedBox; convertedBox])
              = FinalElements l) /\
   (Exists (fun el => throwingArrow el = true) [describedBox; convertedBox] ->
    loadElements sampleCoerce sampleClock true true
                 (VArray [describedBox; convertedBox]) = TypeError)).
Proof.
  exact (passThrough_iff_some_item_has_id_and_type sampleCoerce sampleClock true
           [describedBox; convertedBox] true eq_refl).
Defined.

(* ================================================================== *)
(** * History, generation and conversion *)
(* ================================================================== *)

Lemma history_saveToHistory (seen : AppState) (clock : N * N)
  (setItem : completion) (newState : DiagramState) (st : AppState) :
  history (saveToHistory seen clock setItem newState st)
  = newItem seen clock newState :: firstn 19 (history seen).
Proof. now destruct setItem. Qed.

(** C10: after a save the history holds at most 20 entries, the saved item
    first (with the saved state, its title as preview, and the active tab
    as type), followed by the 19 newest of the entries the handler saw; so
    when it saw 20, the oldest of them is gone.  This holds whether or not
    the write to local storage succeeds; when it does, what is stored is
    the same list as JSON. *)
Theorem saveToHistory_keeps_newest_twenty (seen : AppState) (clock : N * N)
  (setItem : completion) (newState : DiagramState) (st : AppState) :
  let st' := saveToHistory seen clock setItem newState st in
  (length (history st') <= 20)%nat /\
  nth_error (history st') 0 = Some (newItem seen clock newState) /\
  HistoryItem.state (newItem seen clock newState) = newState /\
  history st' = newItem seen clock newState :: firstn 19 (history seen) /\
  (forall older oldest,
      history seen = older ++ [oldest] -> length older = 19%nat ->
      history st' = newItem seen clock newState :: older) /\
  diagram_history st'
  = match setItem with
    | Returns => Some (map storedItem (history st'))
    | Throws => diagram_history st
    end.
Proof.
  intros st'. unfold st'. rewrite history_saveToHistory.
  repeat split.
  - change (S (length (firstn 19 (history seen))) <= 20)%nat.
    rewrite length_firstn. lia.
  - intros older oldest Hseen Hlen. rewrite Hseen.
    rewrite firstn_app, Hlen, Nat.sub_diag. simpl firstn at 2.
    rewrite app_nil_r. rewrite <- Hlen. now rewrite firstn_all.
  - now destruct setItem.
Qed.

(** C4, as the specification states it, fails for conversion: a conversion
    that succeeds stores the elements and switches the tab, shows no alert,
    and the history is as empty as before. *)
Lemma conversion_is_not_saved_to_history :
  let st := handleConvertToExcalidraw (Fulfilled (VArray [convertedBox]))
              (handleConvertToExcalidraw_begin initialApp) in
  excalidrawElements (diagramState st) = VArray [convertedBox] /\
  activeTab st = EXCALIDRAW /\
  isLoading st = false /\
  alerts st = [] /\
  history st = [] /\
  diagram_history st = None.
Proof. vm_compute. repeat split. Qed.

(** C4 (amended): every generation that succeeds (the service answered,
    and in the Excalidraw tab the answer parsed) puts a new entry at the
    head of the history whose state is the new DiagramState, and writes the
    list, as JSON, to local storage; when the browser refuses that write,
    the history is set all the same, local storage stays as it was, and an
    alert is shown.  A conversion that succeeds stores the converted
    elements in the DiagramState and switches to the Excalidraw tab, and
    that is all: the Mermaid code and the title, the history and local
    storage stay as they are. *)
Theorem generation_is_saved_conversion_is_not
  (seen : AppState) (prompt response : jsstring) (parsed : option value)
  (clock : N * N) (setItem : completion) (st : AppState) (converted : value) :
  activeTab seen = MERMAID \/ parsed <> None ->
  let generated :=
    handleGenerate seen prompt (Fulfilled response) parsed clock setItem st in
  let switched := handleConvertToExcalidraw (Fulfilled converted) st in
  (exists item older,
      history generated = item :: older /\
      HistoryItem.state item = diagramState generated /\
      diagram_history generated
      = match setItem with
        | Returns => Some (map storedItem (history generated))
        | Throws => diagram_history st
        end /\
      (setItem = Returns -> alerts generated = alerts st) /\
      (setItem = Throws -> exists msg, alerts generated = alerts st ++ [msg])) /\
  history switched = history st /\
  diagram_history switched = diagram_history st /\
  diagramState switched
  = MkDiagramState (mermaidCode (diagramState st)) converted
                   (title (diagramState st)) /\
  activeTab switched = EXCALIDRAW /\
  alerts switched = alerts st.
Proof.
  intros H generated switched. split; [|repeat split].
  unfold generated, handleGenerate.
  destruct (activeTab seen) eqn:Etab.
  - destruct setItem; do 2 eexists; repeat split; try discriminate;
      intros _; eexists; reflexivity.
  - destruct parsed as [elements|].
    + destruct setItem; do 2 eexists; repeat split; try discriminate;
        intros _; eexists; reflexivity.
    + destruct H as [H|H]; [discriminate|contradiction].
Qed.

Lemma generation_is_saved_conversion_is_not_witness :
  let generated :=
    handleGenerate initialApp (js "a login flow")
      (Fulfilled (js "graph TD" ++ [LF] ++ js "A-->B")) None
      (1700000000000, 1700000000001) Returns
      (handleGenerate_begin initialApp) in
  let switched :=
    handleConvertToExcalidraw (Fulfilled (VArray [convertedBox]))
      (handleGenerate_begin initialApp) in
  (exists item older,
      history generated = item :: older /\
      HistoryItem.state item = diagramState generated /\
      diagram_history generated = Some (map storedItem (history generated)) /\
      (Returns = Returns -> alerts generated = []) /\
      (Returns = Throws -> exists msg, alerts generated = [] ++ [msg])) /\
  history switched = [] /\
  diagram_history switched = None /\
  diagramState switched
  = MkDiagramState (mermaidCode (diagramState initialApp))
                   (VArray [convertedBox]) (js "Untitled Diagram") /\
  activeTab switched = EXCALIDRAW /\
  alerts switched = [].
Proof.
  exact (generation_is_saved_conversion_is_not initialApp (js "a login flow")
           (js "graph TD" ++ [LF] ++ js "A-->B") None
           (1700000000000, 1700000000001) Returns
           (handleGenerate_begin initialApp)
           (VArray [convertedBox]) (or_introl eq_refl)).
Defined.

(** C5, as the specification states it, fails: the answer [{}] is JSON and
    is no array; [JSON.parse] returns the empty object, no alert is shown,
    and the object is stored as the element list and saved to history. *)
Lemma parseable_non_array_is_stored :
  let st := handleGenerate excalidrawApp (js "two boxes")
              (Fulfilled (js "{}")) (Some (VObject []))
              (1700000000000, 1700000000001) Returns
              (handleGenerate_begin excalidrawApp) in
  alerts st = [] /\
  excalidrawElements (diagramState st) = VObject [] /\
  diagramState st <> diagramState excalidrawApp /\
  length (history st) = 1%nat.
Proof. vm_compute. repeat split. discriminate. Qed.

(** C5 (amended): when the answer is not parseable as JSON at all
    ([JSON.parse] throws, as it does on ["{not an array}"]), the caller is
    shown the "invalid data structure" alert and nothing else changes:
    DiagramState, the history and local storage are what they were, and the
    loading flag is cleared. *)
Theorem unparseable_answer_alerts_and_changes_nothing
  (seen : AppState) (prompt response : jsstring) (clock : N * N)
  (setItem : completion) (st : AppState) :
  activeTab seen = EXCALIDRAW ->
  let st' :=
    handleGenerate seen prompt (Fulfilled response) None clock setItem st in
  alerts st' = alerts st ++ [js "AI generated invalid data structure. Please try again."] /\
  diagramState st' = diagramState st /\
  history st' = history st /\
  diagram_history st' = diagram_history st /\
  activeTab st' = activeTab st /\
  isLoading st' = false.
Proof.
  intros H st'. unfold st', handleGenerate. rewrite H. repeat split.
Qed.

Lemma unparseable_answer_alerts_and_changes_nothing_witness :
  let st' := handleGenerate excalidrawApp (js "two boxes")
               (Fulfilled (js "{not an array}")) None
               (1700000000000, 1700000000001) Returns
               (handleGenerate_begin excalidrawApp) in
  alerts st' = [js "AI generated invalid data structure. Please try again."] /\
  diagramState st' = diagramState excalidrawApp /\
  history st' = [] /\
  diagram_history st' = None /\
  activeTab st' = EXCALIDRAW /\
  isLoading st' = false.
Proof.
  exact (unparseable_answer_alerts_and_changes_nothing excalidrawApp
           (js "two boxes") (js "{not an array}")
           (1700000000000, 1700000000001) Returns
           (handleGenerate_begin excalidrawApp) eq_refl).
Defined.

(* ================================================================== *)
(** * More on rendering *)
(* ================================================================== *)


Lemma length_removeAt {A : Type} (l : list A) (k : nat) (x : A) :
  nth_error l k = Some x -> length (removeAt k l) = pred (length l).
Proof.
  revert k. induction l as [|y l IH]; intros k H.
  - now destruct k.
  - destruct k as [|k]; [reflexivity|]. cbn in H. cbn.
    rewrite (IH k H). destruct l; [now destruct k|reflexivity].
Qed.






Lemma dropWhile_nil (p : N -> bool) (s : jsstring) :
  dropWhile p s = [] -> forallb p s = true.
Proof.
  induction s as [|c s IH]; simpl; [reflexivity|].
  destruct (p c); [exact IH|discriminate].
Qed.

Lemma dropWhile_head (p : N -> bool) (s : jsstring) (c : N) (t : jsstring) :
  dropWhile p s = c :: t -> p c = false.
Proof.
  induction s as [|x s IH]; simpl; [discriminate|].
  destruct (p x) eqn:E; [exact IH|]. intros H. injection H as -> _. exact E.
Qed.

(** [trim] gives the empty string exactly on blank texts. *)
Lemma trim_nil (s : jsstring) : trim s = [] -> forallb isWhiteSpace s = true.
Proof.
  unfold trim. intros H.
  assert (H1 : dropWhile isWhiteSpace (rev (dropWhile isWhiteSpace s)) = []).
  { destruct (dropWhile isWhiteSpace (rev _)) as [|x l]; [reflexivity|].
    apply (f_equal (@length N)) in H. simpl in H.
    rewrite length_app in H. simpl in H. lia. }
  apply dropWhile_nil in H1.
  destruct (dropWhile isWhiteSpace s) as [|c t] eqn:E.
  - now apply dropWhile_nil.
  - apply dropWhile_head in E. rewrite forallb_forall in H1.
    rewrite (H1 c) in E; [discriminate|]. apply in_rev. rewrite rev_involutive.
    now left.
Qed.

Lemma splitLines_aux_app (cur a b : jsstring) :
  splitLines_aux cur (a ++ LF :: b) = splitLines_aux cur a ++ splitLines b.
Proof.
  revert cur. induction a as [|c a IH]; intros cur; simpl.
  - reflexivity.
  - destruct (c =? LF); [now rewrite IH|apply IH].
Qed.

(** [injectSyntax] adds the syntax as new lines at the end of the source
    and leaves the lines that were there as they are; when the syntax is not
    blank, exactly one render of the new text is requested. *)
Theorem injectSyntax_appends_lines (st : EditorState) (syntax : jsstring) :
  onChange st = true ->
  forallb isWhiteSpace syntax = false ->
  splitLines (code (injectSyntax syntax st))
  = splitLines (code st) ++ splitLines syntax /\
  inflight (injectSyntax syntax st)
  = inflight st ++ [code st ++ [LF] ++ syntax] /\
  svgContent (injectSyntax syntax st) = svgContent st.
Proof.
  intros Hchange Hsyntax. unfold injectSyntax. rewrite Hchange. cbn [negb].
  assert (Hnew : code st ++ [LF] ++ syntax <> code st).
  { intros H. apply (f_equal (@length N)) in H.
    rewrite !length_app in H. simpl in H. lia. }
  assert (Hblank : trim (code st ++ [LF] ++ syntax) <> []).
  { intros H. apply trim_nil in H. rewrite !forallb_app in H.
    rewrite Hsyntax in H. now rewrite !andb_false_r in H. }
  rewrite (codeChanged_starts_render _ _ Hblank Hnew). cbn.
  repeat split. apply (splitLines_aux_app [] (code st) syntax).
Qed.

Lemma injectSyntax_appends_lines_witness :
  splitLines (code (injectSyntax (js "X1Y2[Rectangle]") (mounted sourceX)))
  = splitLines sourceX ++ splitLines (js "X1Y2[Rectangle]") /\
  inflight (injectSyntax (js "X1Y2[Rectangle]") (mounted sourceX))
  = [] ++ [sourceX ++ [LF] ++ js "X1Y2[Rectangle]"] /\
  svgContent (injectSyntax (js "X1Y2[Rectangle]") (mounted sourceX)) = [].
Proof.
  exact (injectSyntax_appends_lines (mounted sourceX) (js "X1Y2[Rectangle]")
           eq_refl eq_refl).
Defined.

(* ================================================================== *)
(** * More on the history *)
(* ================================================================== *)

Lemma historyInvariant_saveToHistory (seen : AppState) (clock : N * N)
  (setItem : completion) (newState : DiagramState) (st : AppState) :
  (forall saved, diagram_history st = Some saved -> (length saved <= 20)%nat) ->
  historyInvariant (saveToHistory seen clock setItem newState st).
Proof.
  intros Hsaved.
  assert (Hlen : (length (newItem seen clock newState
                          :: firstn 19 (history seen)) <= 20)%nat).
  { change (S (length (firstn 19 (history seen))) <= 20)%nat.
    rewrite length_firstn. lia. }
  split.
  - now rewrite history_saveToHistory.
  - destruct setItem; cbn.
    + intros saved H. injection H as <-.
      change (length (map storedItem (newItem seen clock newState
                                      :: firstn 19 (history seen))) <= 20)%nat.
      now rewrite length_map.
    + exact Hsaved.
Qed.

Lemma historyInvariant_step (st : AppState) (ev : app_event) :
  historyInvariant st -> historyInvariant (app_step st ev).
Proof.
  intros [Hlen Hsaved].
  destruct ev as [| |seen prompt response parsed clock setItem| |converted|item|c|tab|];
    try (split; [exact Hlen|exact Hsaved]).
  - unfold app_step, loadHistory.
    destruct (diagram_history st) as [saved|] eqn:E.
    + split; cbn; [exact (Hsaved saved eq_refl)|].
      intros saved' H. rewrite E in H. injection H as <-.
      exact (Hsaved saved eq_refl).
    + split; [exact Hlen|]. intros saved H. rewrite E in H. discriminate H.
  - unfold app_step, handleGenerate.
    destruct response as [response|e]; [|split; [exact Hlen|exact Hsaved]].
    destruct (activeTab seen).
    + pose proof (historyInvariant_saveToHistory seen clock setItem
                    (MkDiagramState response
                       (excalidrawElements (diagramState seen))
                       (slice0 30 prompt))
                    (setDiagramState
                       (MkDiagramState response
                          (excalidrawElements (diagramState seen))
                          (slice0 30 prompt)) st) Hsaved) as Hinv.
      now destruct setItem.
    + destruct parsed as [elements|]; [|split; [exact Hlen|exact Hsaved]].
      pose proof (historyInvariant_saveToHistory seen clock setItem
                    (MkDiagramState (mermaidCode (diagramState seen)) elements
                       (slice0 30 prompt))
                    (setDiagramState
                       (MkDiagramState (mermaidCode (diagramState seen))
                          elements (slice0 30 prompt)) st) Hsaved) as Hinv.
      now destruct setItem.
  - unfold app_step, handleConvertToExcalidraw.
    destruct converted as [v|[|message]]; split; assumption.
Qed.

(** Whatever happens to the application (mounting, which reads the history
    back from local storage, generations that settle in any way and with
    any closure, writes to local storage that succeed or are refused,
    conversions, history selections, edits, tab changes), the history never
    holds more than 20 entries, neither in the state nor in local storage,
    provided it starts that way, as it does in a browser that has run
    nothing but this application. *)
Theorem history_stays_bounded (evs : list app_event) (st : AppState) :
  (length (history st) <= 20)%nat ->
  (forall saved, diagram_history st = Some saved -> (length saved <= 20)%nat) ->
  (length (history (app_run evs st)) <= 20)%nat /\
  (forall saved, diagram_history (app_run evs st) = Some saved ->
                 (length saved <= 20)%nat).
Proof.
  intros Hlen Hsaved.
  assert (H : forall st, historyInvariant st -> historyInvariant (app_run evs st)).
  { induction evs as [|ev evs IH]; intros st0 Hst; [exact Hst|].
    apply (IH (app_step st0 ev)), historyInvariant_step, Hst. }
  apply H. split; assumption.
Qed.

Lemma history_stays_bounded_witness :
  let evs := [GenerateSettled initialApp (js "a login flow") (Fulfilled sourceX)
                None (1700000000000, 1700000000001) Throws;
              Mounted;
              GenerateSettled initialApp (js "a login flow") (Fulfilled sourceY)
                None (1700000000002, 1700000000003) Returns;
              Mounted] in
  (length (history (app_run evs initialApp)) <= 20)%nat /\
  (forall saved, diagram_history (app_run evs initialApp) = Some saved ->
                 (length saved <= 20)%nat).
Proof.
  apply (history_stays_bounded
           [GenerateSettled initialApp (js "a login flow") (Fulfilled sourceX)
              None (1700000000000, 1700000000001) Throws;
            Mounted;
            GenerateSettled initialApp (js "a login flow") (Fulfilled sourceY)
              None (1700000000002, 1700000000003) Returns;
            Mounted]
           initialApp).
  - cbn. lia.
  - intros saved H. discriminate H.
Defined.

(** Saving and selecting compose to the identity on what was saved: after a
    generation that succeeds, selecting the first history entry brings back
    the generated DiagramState and the tab the generation was made in,
    whatever was edited or converted in between, and whether or not the
    write to local storage went through. *)
Theorem history_select_restores_generated_state
  (seen : AppState) (prompt response : jsstring) (parsed : option value)
  (clock : N * N) (setItem : completion) (st : AppState)
  (later : list app_event) (item : HistoryItem.t) :
  activeTab seen = MERMAID \/ parsed <> None ->
  let generated :=
    handleGenerate seen prompt (Fulfilled response) parsed clock setItem st in
  Forall (fun ev => match ev with
                    | CodeEdited _ | ConvertStarted | ConvertSettled _
                    | TabChanged _ | CodeEditorToggled => True
                    | _ => False
                    end) later ->
  nth_error (history (app_run later generated)) 0 = Some item ->
  diagramState (handleHistorySelect item (app_run later generated))
  = diagramState generated /\
  activeTab (handleHistorySelect item (app_run later generated))
  = activeTab seen.
Proof.
  intros Hok generated Hlater.
  assert (Hkeep : history (app_run later generated) = history generated).
  { revert Hlater. generalize generated. clear.
    induction later as [|ev later IH]; intros st H; [reflexivity|].
    inversion H as [|ev' later' Hev Hrest]; subst.
    cbn [app_run fold_left]. change (fold_left app_step later (app_step st ev))
      with (app_run later (app_step st ev)).
    rewrite (IH _ Hrest).
    destruct ev; try contradiction; try reflexivity.
    cbn. now destruct converted as [v|[|message]]. }
  rewrite Hkeep.
  assert (Hhist : history generated
                  = newItem seen clock (diagramState generated)
                    :: firstn 19 (history seen)).
  { unfold generated, handleGenerate.
    destruct (activeTab seen); [now destruct setItem|].
    destruct parsed as [elements|]; [now destruct setItem|].
    destruct Hok as [Hok|Hok]; [discriminate|contradiction]. }
  rewrite Hhist. cbn [nth_error]. intros H. injection H as <-.
  split; reflexivity.
Qed.

Lemma history_select_restores_generated_state_witness :
  let generated :=
    handleGenerate initialApp (js "a login flow") (Fulfilled sourceX) None
                   (1700000000000, 1700000000001) Throws initialApp in
  let later := [CodeEdited sourceY; ConvertSettled (Fulfilled (VArray []))] in
  diagramState (handleHistorySelect (newItem initialApp (1700000000000, 1700000000001) (diagramState generated))
                                    (app_run later generated))
  = diagramState generated /\
  activeTab (handleHistorySelect (newItem initialApp (1700000000000, 1700000000001) (diagramState generated))
                                 (app_run later generated))
  = MERMAID.
Proof.
  apply (history_select_restores_generated_state initialApp (js "a login flow")
           sourceX None (1700000000000, 1700000000001) Throws initialApp
           [CodeEdited sourceY; ConvertSettled (Fulfilled (VArray []))]);
    [left; reflexivity|repeat constructor|reflexivity].
Defined.

(** A generation that the service rejects and a conversion that throws
    commit nothing, in either tab: the loading flag is cleared, and
    DiagramState, the tab, the history and local storage are what they
    were.  The rejected generation shows its one alert.  The conversion
    shows one alert that names the message of what was thrown, or "Unknown
    error"; but when [null] or [undefined] was thrown, reading its message
    throws inside the [catch], and no alert is shown at all. *)
Theorem failure_commits_nothing (seen : AppState) (prompt : jsstring)
  (parsed : option value) (clock : N * N) (setItem : completion)
  (e : thrown) (st : AppState) :
  let unchanged st' :=
    diagramState st' = diagramState st /\ activeTab st' = activeTab st /\
    history st' = history st /\ diagram_history st' = diagram_history st /\
    isLoading st' = false in
  unchanged (handleGenerate seen prompt (Rejected tt) parsed clock setItem st) /\
  alerts (handleGenerate seen prompt (Rejected tt) parsed clock setItem st)
  = alerts st ++ [js "Failed to generate diagram. Please check your API key and try again."] /\
  unchanged (handleConvertToExcalidraw (Rejected e) st) /\
  alerts (handleConvertToExcalidraw (Rejected e) st)
  = match e with
    | Nullish => alerts st
    | Thrown (Some (c :: t)) =>
        alerts st ++ [js "Failed to convert diagram: " ++ (c :: t) ++
                      js ". Check console for details."]
    | Thrown _ =>
        alerts st ++ [js "Failed to convert diagram: Unknown error. Check console for details."]
    end.
Proof.
  cbn zeta. destruct e as [|[[|c t]|]]; repeat split.
Qed.

(* ================================================================== *)
(** * Facts about the matcher *)
(* ================================================================== *)

Lemma includes_unfold (s p : jsstring) :
  includes s p = match stripPrefix p s with
                 | Some _ => true
                 | None => match s with [] => false | _ :: t => includes t p end
                 end.
Proof. destruct s; reflexivity. Qed.

Lemma stripPrefix_app (a b : jsstring) : stripPrefix a (a ++ b) = Some b.
Proof.
  induction a as [|x a IH]; simpl; [now destruct b|].
  now rewrite N.eqb_refl.
Qed.

Lemma stripPrefix_Some (p s t : jsstring) :
  stripPrefix p s = Some t -> s = p ++ t.
Proof.
  revert s. induction p as [|x p IH]; intros s; cbn.
  - now intros [= ->].
  - destruct s as [|y s]; [discriminate|].
    destruct (N.eqb_spec x y) as [->|]; [|discriminate].
    intros H. now rewrite (IH s H).
Qed.

Lemma stripPrefix_None_app (a t u : jsstring) :
  stripPrefix a t = None -> (length a <= length t)%nat ->
  stripPrefix a (t ++ u) = None.
Proof.
  revert t. induction a as [|x a IH]; intros t; simpl.
  - now destruct t.
  - destruct t as [|y t]; simpl; [lia|].
    destruct (x =? y); [|reflexivity]. intros H Hl. apply IH; [exact H|lia].
Qed.

(** A text that does not occur in [a ++ t] is no prefix of [t]. *)
Lemma includes_false_suffix (p a t : jsstring) :
  includes (a ++ t) p = false -> stripPrefix p t = None.
Proof.
  induction a as [|x a IH]; simpl app; rewrite includes_unfold.
  - now destruct (stripPrefix p t).
  - destruct (stripPrefix p (x :: a ++ t)); [discriminate|]. exact IH.
Qed.

Lemma includes_app (a q b : jsstring) : includes (a ++ q ++ b) q = true.
Proof.
  induction a as [|x a IH]; cbn [app]; rewrite includes_unfold.
  - now rewrite stripPrefix_app.
  - rewrite IH. now destruct (stripPrefix _ _).
Qed.

Lemma includes_split (s q : jsstring) :
  includes s q = true -> exists a b, s = a ++ q ++ b.
Proof.
  induction s as [|x s IH]; rewrite includes_unfold.
  - destruct (stripPrefix q []) as [b|] eqn:E; [|discriminate].
    intros _. apply stripPrefix_Some in E. now exists [], b.
  - destruct (stripPrefix q (x :: s)) as [b|] eqn:E.
    + intros _. apply stripPrefix_Some in E. now exists [], b.
    + intros H. destruct (IH H) as [a [b ->]]. now exists (x :: a), b.
Qed.

Lemma firstn_exact {A : Type} (a b : list A) (n : nat) :
  n = length a -> firstn n (a ++ b) = a.
Proof.
  intros ->. rewrite firstn_app, Nat.sub_diag, firstn_all. cbn.
  apply app_nil_r.
Qed.

(** A greedy star fails when the rest of the pattern fails after every
    run of class characters it can take. *)
Lemma star_none (p : N -> bool) (k : mstate -> option mstate)
  (caps : list (nat * jsstring)) (a : jsstring) :
  forall b i,
  (forall w a' b' i', a = w ++ a' -> forallb p w = true ->
                      k (MState b' a' i' caps) = None) ->
  star p k b a i caps = None.
Proof.
  induction a as [|c t IH]; intros b i H; simpl.
  - apply (H [] []); reflexivity.
  - assert (H0 : k (MState b (c :: t) i caps) = None)
      by (apply (H [] (c :: t)); reflexivity).
    destruct (p c) eqn:E; [|exact H0].
    rewrite IH; [exact H0|].
    intros w a' b' i' -> Hw. apply (H (c :: w) a'); [reflexivity|].
    simpl. now rewrite E.
Qed.

(** A greedy star takes the whole run of class characters when the rest of
    the pattern matches after it. *)
Lemma star_greedy (p : N -> bool) (k : mstate -> option mstate)
  (caps : list (nat * jsstring)) (w : jsstring) (c : N) (t : jsstring)
  (r : mstate) :
  forall b i,
  forallb p w = true -> p c = false ->
  k (MState (rev w ++ b) (c :: t) (length w + i) caps) = Some r ->
  star p k b (w ++ c :: t) i caps = Some r.
Proof.
  induction w as [|x w IH]; intros b i Hw Hc Hk; simpl in *.
  - now rewrite Hc.
  - apply andb_true_iff in Hw. destruct Hw as [Hx Hw]. rewrite Hx.
    rewrite (IH (x :: b) (S i) Hw Hc); [reflexivity|].
    rewrite <- app_assoc in Hk. simpl in Hk.
    now replace (length w + S i)%nat with (S (length w + i)) by lia.
Qed.

Section Replace.

Variables (ml : bool) (r : regex) (tmpl : jsstring).

Lemma search_none (after : jsstring) :
  forall before,
  (forall a t b, after = a ++ t -> matchAt ml r b t = None) ->
  search ml r before after = None.
Proof.
  induction after as [|c t IH]; intros before H; cbn [search].
  - now rewrite (H [] [] before eq_refl).
  - rewrite (H [] (c :: t) before eq_refl). apply IH.
    intros a t' b ->. apply (H (c :: a) t' b). reflexivity.
Qed.

Lemma replaceFrom_none (after : jsstring) :
  forall before,
  (forall a t b, after = a ++ t -> matchAt ml r b t = None) ->
  replaceFrom ml r tmpl before after 0 = after.
Proof.
  induction after as [|c t IH]; intros before H; cbn [replaceFrom].
  - now rewrite (H [] [] before eq_refl).
  - rewrite (H [] (c :: t) before eq_refl). f_equal. apply IH.
    intros a t' b ->. apply (H (c :: a) t' b). reflexivity.
Qed.

Lemma replaceFrom_prefix (tail pre : jsstring) :
  forall before,
  (forall p1 c p2 b, pre = p1 ++ c :: p2 ->
                     matchAt ml r b (c :: p2 ++ tail) = None) ->
  replaceFrom ml r tmpl before (pre ++ tail) 0
  = pre ++ replaceFrom ml r tmpl (rev pre ++ before) tail 0.
Proof.
  induction pre as [|c p IH]; intros before H; [reflexivity|].
  cbn [app replaceFrom]. rewrite (H [] c p before eq_refl). f_equal.
  rewrite IH.
  - cbn [rev]. now rewrite <- app_assoc.
  - intros p1 c' p2 b ->. apply (H (c :: p1) c' p2 b). reflexivity.
Qed.

Lemma replaceFrom_skip (a tail : jsstring) :
  forall before,
  replaceFrom ml r tmpl before (a ++ tail) (length a)
  = replaceFrom ml r tmpl (rev a ++ before) tail 0.
Proof.
  induction a as [|c a IH]; intros before.
  - destruct tail; reflexivity.
  - cbn [app length replaceFrom]. rewrite IH. cbn [rev].
    now rewrite <- app_assoc.
Qed.

End Replace.

Lemma expand_other (ng : nat) (f : found) (c : N) (t : jsstring) :
  c <> 36 -> expand ng f (c :: t) = c :: expand ng f t.
Proof.
  intros H. destruct c as [|p]; [reflexivity|].
  repeat (destruct p as [p|p|]; try reflexivity). now elim H.
Qed.

Lemma expand_plain (ng : nat) (f : found) (a b : jsstring) :
  existsb (N.eqb 36) a = false -> expand ng f (a ++ b) = a ++ expand ng f b.
Proof.
  induction a as [|c a IH]; [reflexivity|]. cbn [existsb app].
  intros H. apply orb_false_iff in H. destruct H as [Hc Ha].
  rewrite expand_other, (IH Ha); [reflexivity|].
  intros ->. discriminate Hc.
Qed.

Lemma expand_dollar_1 (f : found) (t : jsstring) :
  expand 3 f (36 :: 49 :: t) = capture 1 (groups f) ++ expand 3 f t.
Proof.
  cbn [expand]. change (isDigit 49) with true. change (digit 49) with 1%nat.
  cbv iota. destruct t as [|d2 t''].
  - cbn. now rewrite app_nil_r.
  - destruct (isDigit d2); cbn [Nat.mul Nat.add Nat.leb andb]; reflexivity.
Qed.

(** The replacement of [submitNodeUpdate] for a new text without a dollar
    sign: the opener, the new text, the closer. *)
Lemma expand_template (f : found) (newText : jsstring) :
  existsb (N.eqb 36) newText = false ->
  expand 3 f (js "$1" ++ newText ++ js "$3")
  = capture 1 (groups f) ++ newText ++ capture 3 (groups f).
Proof.
  intros H.
  change (js "$1" ++ newText ++ js "$3") with (36 :: 49 :: newText ++ [36; 51]).
  rewrite expand_dollar_1, (expand_plain 3 f newText [36; 51] H).
  reflexivity.
Qed.

(* ================================================================== *)
(** * More on editing a label *)
(* ================================================================== *)

Lemma nodeRegex_eq (e : jsstring) :
  nodeRegex e =
  Seq (Group 1 openers)
      (Seq (Group 2 (Seq (Star isWhiteSpace)
                         (Seq (Lit (patternChars e)) (Star isWhiteSpace))))
           (Group 3 closers)).
Proof. reflexivity. Qed.

Lemma isOpener_cases (c : N) :
  isOpener c = ((91 =? c) || (40 =? c) || (123 =? c) || (62 =? c) || (47 =? c)).
Proof.
  unfold isOpener. cbn [js map list_ascii_of_string existsb].
  rewrite !(N.eqb_sym c). cbn. now rewrite orb_false_r, !orb_assoc.
Qed.

Lemma isCloser_cases (c : N) :
  isCloser c = ((93 =? c) || (41 =? c) || (125 =? c) || (92 =? c)).
Proof.
  unfold isCloser. cbn [js map list_ascii_of_string existsb app].
  rewrite !(N.eqb_sym c). cbn. now rewrite orb_false_r, !orb_assoc.
Qed.

Ltac one_char_alternatives c k :=
  cbn [alts m rest consumed index captures stripPrefix length rev app Nat.add];
  repeat match goal with
         | |- context [?x =? c] =>
             destruct (N.eqb_spec x c) as [<-|?]; cbn [orb]
         end;
  try reflexivity;
  repeat match goal with
         | |- context [?x =? ?y] =>
             destruct (N.eqb_spec x y) as [?|?]; try discriminate
         end;
  try reflexivity; now destruct (k _).

Lemma m_openers (ml : bool) (k : mstate -> option mstate)
  (b : jsstring) (c : N) (t : jsstring) (i : nat) (caps : list (nat * jsstring)) :
  m ml openers k (MState b (c :: t) i caps)
  = if isOpener c then k (MState (c :: b) t (S i) caps) else None.
Proof.
  rewrite isOpener_cases. unfold openers. one_char_alternatives c k.
Qed.

Lemma m_closers (ml : bool) (k : mstate -> option mstate)
  (b : jsstring) (c : N) (t : jsstring) (i : nat) (caps : list (nat * jsstring)) :
  m ml closers k (MState b (c :: t) i caps)
  = if isCloser c then k (MState (c :: b) t (S i) caps) else None.
Proof.
  rewrite isCloser_cases. unfold closers. one_char_alternatives c k.
Qed.

Lemma opener_not_white (c : N) : isOpener c = true -> isWhiteSpace c = false.
Proof.
  rewrite isOpener_cases. intros H.
  repeat (apply orb_true_iff in H; destruct H as [H|H]);
    apply N.eqb_eq in H; subst; reflexivity.
Qed.

Lemma closer_not_white (c : N) : isCloser c = true -> isWhiteSpace c = false.
Proof.
  rewrite isCloser_cases. intros H.
  repeat (apply orb_true_iff in H; destruct H as [H|H]);
    apply N.eqb_eq in H; subst; reflexivity.
Qed.

(** The pattern matches nowhere the old label does not follow an opener and
    white space. *)
Lemma nodeRegex_no_match (old before after : jsstring) :
  (forall c w t, after = c :: w ++ t -> forallb isWhiteSpace w = true ->
                 stripPrefix old t = None) ->
  matchAt false (nodeRegex (escapeRegExp old)) before after = None.
Proof.
  intros H. unfold matchAt. rewrite nodeRegex_eq, patternChars_escapeRegExp.
  cbn [m]. destruct after as [|c tl]; [reflexivity|].
  rewrite m_openers. destruct (isOpener c); [|reflexivity].
  cbn [rest consumed index captures].
  rewrite star_none; [reflexivity|].
  intros w a' b' i' -> Hw. cbn [m rest].
  now rewrite (H c w a' eq_refl Hw).
Qed.

(** The pattern matches an opener, white space, the old label, white space
    and a closer, and takes all of it. *)
Lemma nodeRegex_match (old before ws1 ws2 post : jsstring) (op cl c : N)
  (t : jsstring) :
  old = c :: t -> isWhiteSpace c = false ->
  isOpener op = true -> isCloser cl = true ->
  forallb isWhiteSpace ws1 = true -> forallb isWhiteSpace ws2 = true ->
  exists caps,
    matchAt false (nodeRegex (escapeRegExp old)) before
            (op :: ws1 ++ old ++ ws2 ++ cl :: post)
    = Some (Found (rev before) (op :: ws1 ++ old ++ ws2 ++ [cl]) post caps) /\
    capture 1 caps = [op] /\ capture 3 caps = [cl].
Proof.
  intros -> Hc Hop Hcl Hw1 Hw2.
  unfold matchAt. rewrite nodeRegex_eq, patternChars_escapeRegExp.
  cbn [m]. rewrite m_openers, Hop. cbn [rest consumed index captures app].
  erewrite (star_greedy isWhiteSpace _ _ ws1 c (t ++ ws2 ++ cl :: post));
    [ | exact Hw1 | exact Hc | ].
  2: { cbn [m rest consumed index captures].
       change (c :: t ++ ws2 ++ cl :: post) with ((c :: t) ++ ws2 ++ cl :: post).
       rewrite stripPrefix_app.
       erewrite (star_greedy isWhiteSpace _ _ ws2 cl post);
         [ reflexivity | exact Hw2 | exact (closer_not_white cl Hcl) | ].
       cbn [m rest consumed index captures].
       rewrite m_closers, Hcl. reflexivity. }
  cbn [rest consumed index captures].
  eexists. split; [|split].
  - f_equal. f_equal. cbn [app].
    assert (E : op :: ws1 ++ c :: t ++ ws2 ++ cl :: post
                = (op :: ws1 ++ c :: t ++ ws2 ++ [cl]) ++ post)
      by (cbn [app]; repeat (rewrite <- app_assoc; cbn [app]); reflexivity).
    rewrite E. apply firstn_exact.
    cbn [length]. rewrite !length_app. cbn [length]. rewrite !length_app.
    cbn [length]. lia.
  - reflexivity.
  - cbn [capture Nat.eqb].
    match goal with |- firstn ?n _ = _ => replace n with 1%nat by lia end.
    reflexivity.
Qed.

Lemma split_before_nonwhite (w t' p2 : jsstring) (op : N) (X : jsstring) :
  w ++ t' = p2 ++ op :: X -> forallb isWhiteSpace w = true ->
  isWhiteSpace op = false ->
  exists p2', p2 = w ++ p2' /\ t' = p2' ++ op :: X.
Proof.
  revert p2. induction w as [|x w IH]; intros p2 H Hw Hop.
  - exists p2. split; [reflexivity|exact H].
  - cbn in Hw. apply andb_true_iff in Hw. destruct Hw as [Hx Hw].
    destruct p2 as [|y p2]; cbn in H; injection H as -> H.
    + congruence.
    + destruct (IH p2 H Hw Hop) as [p2' [-> ->]]. now exists p2'.
Qed.

(** Where the old label does not occur, the global replace changes
    nothing. *)
Lemma replace_without_label (old code : jsstring) :
  includes code old = false ->
  forall before tmpl,
  replaceFrom false (nodeRegex (escapeRegExp old)) tmpl before code 0 = code.
Proof.
  intros H before tmpl. apply replaceFrom_none.
  intros a t b ->. apply nodeRegex_no_match.
  intros c w t' -> _.
  apply (includes_false_suffix old (a ++ c :: w) t').
  now rewrite <- app_assoc.
Qed.

Lemma submitNodeUpdate_no_match (st : EditorState) (node : EditingNode.t)
  (newText : jsstring) :
  editingNode st = Some node -> onChange st = true ->
  includes (code st) (EditingNode.text node) = false ->
  submitNodeUpdate newText st = setEditingNode None st.
Proof.
  intros Hnode Hchange Hinc. unfold submitNodeUpdate.
  rewrite Hnode, Hchange. unfold replaceAll.
  rewrite (replace_without_label _ _ Hinc). unfold codeChanged.
  now rewrite str_eqb_refl.
Qed.

Lemma literalSource_plain (c : N) (t : jsstring) :
  SyntaxCharacter c = false ->
  literalSource (c :: t) = option_map (cons c) (literalSource t).
Proof.
  intros H. destruct c as [|p]; [reflexivity|].
  cbn [literalSource]. rewrite H.
  repeat (destruct p as [p|p|]; try reflexivity).
  discriminate H.
Qed.

Lemma literalSource_escaped (c : N) (t : jsstring) :
  SyntaxCharacter c = true ->
  literalSource (92 :: c :: t) = option_map (cons c) (literalSource t).
Proof. intros H. cbn [literalSource]. now rewrite H. Qed.

Lemma literalSource_cons (c : N) (t : jsstring) :
  c <> 92 ->
  literalSource (c :: t)
  = if SyntaxCharacter c then None else option_map (cons c) (literalSource t).
Proof.
  intros H. destruct c as [|p]; [reflexivity|].
  repeat (destruct p as [p|p|]; try reflexivity). now elim H.
Qed.

(** Where the grammar reads a source as a sequence of literals, the
    reading that [nodeRegex] uses gives the same characters. *)
Lemma patternChars_literalSource (n : nat) :
  forall src l, (length src <= n)%nat ->
  literalSource src = Some l -> patternChars src = l.
Proof.
  induction n as [|n IH]; intros src l Hlen.
  - destruct src; [|cbn in Hlen; lia]. cbn. now intros [= <-].
  - destruct src as [|c t]; [cbn; now intros [= <-]|].
    destruct (N.eq_dec c 92) as [->|Hc].
    + destruct t as [|c2 t']; [discriminate|].
      cbn [literalSource patternChars].
      destruct (SyntaxCharacter c2); [|discriminate].
      destruct (literalSource t') as [l'|] eqn:E; [|discriminate].
      intros [= <-]. f_equal. apply IH; [cbn in Hlen; lia|exact E].
    + rewrite (literalSource_cons c t Hc), (patternChars_plain c t Hc).
      destruct (SyntaxCharacter c); [discriminate|].
      destruct (literalSource t) as [l'|] eqn:E; [|discriminate].
      intros [= <-]. f_equal. apply IH; [cbn in Hlen; lia|exact E].
Qed.

(** The class that the code escapes holds every SyntaxCharacter of the
    grammar, and nothing else. *)
Lemma isSyntaxChar_SyntaxCharacter (c : N) :
  isSyntaxChar c = SyntaxCharacter c.
Proof.
  unfold isSyntaxChar, SyntaxCharacter.
  cbn [js map list_ascii_of_string existsb app].
  change (N_of_ascii "^") with 94. change (N_of_ascii "$") with 36.
  change (N_of_ascii ".") with 46. change (N_of_ascii "*") with 42.
  change (N_of_ascii "+") with 43. change (N_of_ascii "?") with 63.
  change (N_of_ascii "(") with 40. change (N_of_ascii ")") with 41.
  change (N_of_ascii "[") with 91. change (N_of_ascii "]") with 93.
  change (N_of_ascii "{") with 123. change (N_of_ascii "}") with 125.
  change (N_of_ascii "|") with 124.
  repeat match goal with
         | |- context [c =? ?k] => destruct (N.eqb_spec c k); [subst; reflexivity|]
         end.
  reflexivity.
Qed.

(** The escaped label is a sequence of literals of the pattern grammar,
    and the literals are the characters of the label: every
    SyntaxCharacter of the label is escaped, and nothing else is.  So the
    pattern matches the label itself, whatever it holds; the reading of the
    source that [nodeRegex] uses agrees; and a label without such
    characters is not changed by the escaping. *)
Theorem escapeRegExp_round_trip (s : jsstring) :
  literalSource (escapeRegExp s) = Some s /\
  patternChars (escapeRegExp s) = s /\
  (existsb isSyntaxChar s = false -> escapeRegExp s = s).
Proof.
  split; [|split; [apply patternChars_escapeRegExp|]].
  - induction s as [|c s IH]; [reflexivity|]. cbn [escapeRegExp].
    destruct (isSyntaxChar c) eqn:E; rewrite isSyntaxChar_SyntaxCharacter in E.
    + now rewrite (literalSource_escaped c _ E), IH.
    + now rewrite (literalSource_plain c _ E), IH.
  - induction s as [|c s IH]; [reflexivity|]. cbn [existsb escapeRegExp].
    intros H. apply orb_false_iff in H. destruct H as [-> H].
    now rewrite (IH H).
Qed.

(** A commit whose old label occurs nowhere in the source is a silent
    no-op: the source text stays as it is, no render is requested, and the
    edit session is closed. *)
Theorem submitNodeUpdate_without_match_is_silent (st : EditorState)
  (node : EditingNode.t) (newText : jsstring) :
  editingNode st = Some node -> onChange st = true ->
  includes (code st) (EditingNode.text node) = false ->
  code (submitNodeUpdate newText st) = code st /\
  inflight (submitNodeUpdate newText st) = inflight st /\
  svgContent (submitNodeUpdate newText st) = svgContent st /\
  error (submitNodeUpdate newText st) = error st /\
  editingNode (submitNodeUpdate newText st) = None.
Proof.
  intros Hnode Hchange Hinc.
  rewrite (submitNodeUpdate_no_match st node newText Hnode Hchange Hinc).
  repeat split.
Qed.

Lemma submitNodeUpdate_without_match_is_silent_witness :
  code (submitNodeUpdate (js "Square") (editing twoBoxes (js "Circle")))
  = twoBoxes /\
  inflight (submitNodeUpdate (js "Square") (editing twoBoxes (js "Circle"))) = [] /\
  svgContent (submitNodeUpdate (js "Square") (editing twoBoxes (js "Circle"))) = [] /\
  error (submitNodeUpdate (js "Square") (editing twoBoxes (js "Circle"))) = None /\
  editingNode (submitNodeUpdate (js "Square") (editing twoBoxes (js "Circle")))
  = None.
Proof.
  exact (submitNodeUpdate_without_match_is_silent
           (editing twoBoxes (js "Circle"))
           (EditingNode.Make (js "flowchart-A-0") (js "Circle")) (js "Square")
           eq_refl eq_refl eq_refl).
Defined.

(** A commit made through the overlay looks for the draft, not for the
    label that was double-clicked: typing a text that does not yet occur in
    the source and pressing Enter changes nothing but to close the session,
    whatever node was clicked. *)
Theorem overlay_commit_searches_for_the_draft (st : EditorState)
  (fullId label draft : jsstring) :
  panMode st = false -> onChange st = true ->
  includes (code st) draft = false ->
  overlayKeyDown (Enter false)
    (overlayChange draft (handleNodeDoubleClick (Some (fullId, label)) st))
  = setEditingNode None st.
Proof.
  intros Hpan Hchange Hinc. unfold handleNodeDoubleClick.
  rewrite Hpan, Hchange. cbn [orb negb].
  unfold overlayChange, overlayKeyDown.
  cbn [editingNode setEditingNode EditingNode.text EditingNode.id].
  now rewrite (submitNodeUpdate_no_match _ (EditingNode.Make fullId draft) draft).
Qed.

Lemma overlay_commit_searches_for_the_draft_witness :
  overlayKeyDown (Enter false)
    (overlayChange (js "Square")
       (handleNodeDoubleClick (Some (js "flowchart-A-0", js "Box"))
          (mounted twoBoxes)))
  = setEditingNode None (mounted twoBoxes).
Proof.
  exact (overlay_commit_searches_for_the_draft (mounted twoBoxes)
           (js "flowchart-A-0") (js "Box") (js "Square")
           eq_refl eq_refl eq_refl).
Defined.

(** When the old label occurs exactly once in the source, between an
    opener and a closer with any white space around it, the commit puts the
    new text between the two delimiters (the white space goes), keeps the
    delimiters and every other character of the source, and closes the
    session.  The label starts with a character that is not white space,
    and the new text holds no dollar sign. *)
Theorem submitNodeUpdate_rewrites_the_only_occurrence (st : EditorState)
  (node : EditingNode.t) (pre ws1 ws2 post newText : jsstring) (op cl c : N)
  (t : jsstring) :
  editingNode st = Some node -> onChange st = true ->
  EditingNode.text node = c :: t -> isWhiteSpace c = false ->
  code st = pre ++ op :: ws1 ++ (c :: t) ++ ws2 ++ cl :: post ->
  isOpener op = true -> isCloser cl = true ->
  forallb isWhiteSpace ws1 = true -> forallb isWhiteSpace ws2 = true ->
  includes (pre ++ op :: ws1 ++ removelast (c :: t)) (c :: t) = false ->
  includes post (c :: t) = false ->
  existsb (N.eqb 36) newText = false ->
  code (submitNodeUpdate newText st) = pre ++ op :: newText ++ cl :: post /\
  editingNode (submitNodeUpdate newText st) = None.
Proof.
  intros Hnode Hchange Htext Hc Hcode Hop Hcl Hw1 Hw2 Hpre Hpost Hnew.
  unfold submitNodeUpdate. rewrite Hnode, Hchange. cbn zeta.
  split; [|reflexivity].
  cbn [code setEditingNode]. rewrite code_codeChanged.
  unfold replaceAll. rewrite Hcode, Htext.
  set (old := c :: t) in *.
  set (tail := op :: ws1 ++ old ++ ws2 ++ cl :: post).
  rewrite replaceFrom_prefix.
  - f_equal. unfold tail. cbn [replaceFrom].
    destruct (nodeRegex_match old (rev pre ++ []) ws1 ws2 post op cl c t
                eq_refl Hc Hop Hcl Hw1 Hw2) as [caps [Hm [H1 H3]]].
    rewrite Hm. cbn [matched length].
    change (ngroups (nodeRegex (escapeRegExp old))) with 3%nat.
    rewrite (expand_template _ _ Hnew). cbn [groups]. rewrite H1, H3.
    replace (ws1 ++ old ++ ws2 ++ cl :: post)
      with ((ws1 ++ old ++ ws2 ++ [cl]) ++ post)
      by (repeat (rewrite <- app_assoc; cbn [app]); reflexivity).
    rewrite replaceFrom_skip, (replace_without_label _ _ Hpost).
    cbn [app]. now rewrite <- app_assoc.
  - intros p1 c0 p2 b Hsplit. apply nodeRegex_no_match.
    intros c' w t' Heq Hw. injection Heq as <- Heq.
    destruct (split_before_nonwhite w t' p2 op _ (eq_sym Heq) Hw
                (opener_not_white op Hop)) as [p2' [-> ->]].
    destruct (@exists_last _ old ltac:(discriminate)) as [o1 [x Hox]].
    assert (Hrl : removelast old = o1)
      by (rewrite Hox; apply removelast_last).
    rewrite Hrl in Hpre.
    set (T := p2' ++ op :: ws1 ++ o1).
    assert (HT : stripPrefix old T = None).
    { apply (includes_false_suffix old (p1 ++ c0 :: w) T).
      assert (E : (p1 ++ c0 :: w) ++ T = pre ++ op :: ws1 ++ o1).
      { unfold T. rewrite Hsplit.
        repeat (rewrite <- app_assoc; cbn [app]). reflexivity. }
      rewrite E. exact Hpre. }
    assert (E : p2' ++ op :: ws1 ++ old ++ ws2 ++ cl :: post
                = T ++ [x] ++ ws2 ++ cl :: post).
    { unfold T. rewrite Hox.
      repeat (rewrite <- app_assoc; cbn [app]). reflexivity. }
    rewrite E. apply stripPrefix_None_app; [exact HT|].
    unfold T. rewrite Hox. rewrite !length_app. cbn [length].
    rewrite !length_app. cbn [length]. lia.
Qed.

Lemma submitNodeUpdate_rewrites_the_only_occurrence_witness :
  code (submitNodeUpdate (js "Begin")
          (editing (js "A[ Start ] --> B{Stop}" ++ [LF] ++ js "B --> C(End)")
                   (js "Start")))
  = js "A" ++ 91 :: js "Begin" ++ 93 :: (js " --> B{Stop}" ++ [LF] ++ js "B --> C(End)") /\
  editingNode (submitNodeUpdate (js "Begin")
                 (editing (js "A[ Start ] --> B{Stop}" ++ [LF] ++ js "B --> C(End)")
                          (js "Start")))
  = None.
Proof.
  exact (submitNodeUpdate_rewrites_the_only_occurrence
           (editing (js "A[ Start ] --> B{Stop}" ++ [LF] ++ js "B --> C(End)")
                    (js "Start"))
           (EditingNode.Make (js "flowchart-A-0") (js "Start"))
           (js "A") (js " ") (js " ")
           (js " --> B{Stop}" ++ [LF] ++ js "B --> C(End)")
           (js "Begin") 91 93 83 (js "tart")
           eq_refl eq_refl eq_refl eq_refl eq_refl eq_refl eq_refl eq_refl
           eq_refl eq_refl eq_refl eq_refl).
Defined.

(* ================================================================== *)
(** * More on the orientation toggle *)
(* ================================================================== *)

Lemma keyword_needed (ml : bool) (tailr : regex) (b t : jsstring) :
  stripPrefix (js "graph") t = None ->
  stripPrefix (js "flowchart") t = None ->
  matchAt ml (Seq (Group 1 (Alt (Lit (js "graph")) (Lit (js "flowchart")))) tailr) b t = None /\
  matchAt ml (Seq Bol (Seq (Group 1 (Alt (Lit (js "graph")) (Lit (js "flowchart")))) tailr)) b t = None /\
  matchAt ml (Seq Bol (Group 1 (Alt (Lit (js "graph")) (Lit (js "flowchart"))))) b t = None.
Proof.
  intros H1 H2. unfold matchAt. cbn [m rest]. rewrite H1, H2.
  repeat split; now destruct (atLineStart _ _).
Qed.

Lemma toggledCode_prepends (newDir : Orientation) (code : jsstring) :
  includes code (js "graph") = false ->
  includes code (js "flowchart") = false ->
  toggledCode newDir code = js "graph " ++ dirName newDir ++ [LF] ++ code.
Proof.
  intros Hg Hf. unfold toggledCode, replaceFirst, exec.
  assert (Hkw : forall a t, code = a ++ t ->
                 stripPrefix (js "graph") t = None /\
                 stripPrefix (js "flowchart") t = None).
  { intros a t ->. split; eapply includes_false_suffix; eassumption. }
  rewrite (search_none true headerRegex code []).
  2: { intros a t b Ht. destruct (Hkw a t Ht) as [H1 H2].
       apply (keyword_needed true _ b t H1 H2). }
  rewrite (search_none false startRegex code []).
  2: { intros a t b Ht. destruct (Hkw a t Ht) as [H1 H2].
       apply (keyword_needed false (Plus isWhiteSpace) b t H1 H2). }
  now rewrite str_eqb_refl.
Qed.

Lemma toggledCode_header (newDir : Orientation) (kw dir body : jsstring) :
  In kw [js "graph"; js "flowchart"] ->
  In dir [js "TD"; js "LR"; js "TB"; js "BT"; js "RL"] ->
  toggledCode newDir (kw ++ js " " ++ dir ++ LF :: body)
  = kw ++ js " " ++ dirName newDir ++ LF :: body.
Proof.
  intros Hkw Hdir. cbn [In] in Hkw, Hdir.
  repeat match goal with
         | H : _ \/ _ |- _ => destruct H as [H|H]
         | H : False |- _ => destruct H
         end; subst; destruct newDir; unfold toggledCode; cbv zeta;
    match goal with
    | |- context [replaceFirst true headerRegex ?t ?c] =>
        let v := eval vm_compute in (replaceFirst true headerRegex t c) in
        let c' := eval vm_compute in c in
        replace (replaceFirst true headerRegex t c) with v
          by (vm_compute; reflexivity);
        change c with c'
    end;
    rewrite ?str_eqb_refl; vm_compute; reflexivity.
Qed.

Lemma orientation_codeChanged (newCode : jsstring) (st : EditorState) :
  orientation (codeChanged newCode st) = orientation st.
Proof.
  unfold codeChanged, renderDiagram.
  destruct (str_eqb newCode (code st)); [reflexivity|].
  now destruct (trim (code (setCode newCode st))).
Qed.

(** The direction written into the header is the opposite of the
    orientation held in the state, whatever direction the header named: a
    first line [graph D] or [flowchart D], with [D] any of TD, LR, TB, BT
    and RL, becomes the same keyword with the new direction, and the lines
    below it are kept. *)
Theorem toggleOrientation_writes_the_state_direction (st : EditorState)
  (kw dir body : jsstring) :
  onChange st = true ->
  In kw [js "graph"; js "flowchart"] ->
  In dir [js "TD"; js "LR"; js "TB"; js "BT"; js "RL"] ->
  code st = kw ++ js " " ++ dir ++ LF :: body ->
  code (toggleOrientation st)
  = kw ++ js " "
       ++ dirName (match orientation st with TD => LR | LR => TD end)
       ++ LF :: body /\
  orientation (toggleOrientation st)
  = match orientation st with TD => LR | LR => TD end.
Proof.
  intros Hchange Hkw Hdir Hcode. unfold toggleOrientation.
  rewrite Hchange. cbn [negb].
  rewrite code_codeChanged, orientation_codeChanged, Hcode.
  split; [|reflexivity]. now apply toggledCode_header.
Qed.

Lemma toggleOrientation_writes_the_state_direction_witness :
  code (toggleOrientation (mounted (js "flowchart RL" ++ LF :: js "A-->B")))
  = js "flowchart" ++ js " " ++ js "LR" ++ LF :: js "A-->B" /\
  orientation (toggleOrientation (mounted (js "flowchart RL" ++ LF :: js "A-->B")))
  = LR.
Proof.
  exact (toggleOrientation_writes_the_state_direction
           (mounted (js "flowchart RL" ++ LF :: js "A-->B"))
           (js "flowchart") (js "RL") (js "A-->B")
           eq_refl (or_intror (or_introl eq_refl))
           (or_intror (or_intror (or_intror (or_intror (or_introl eq_refl)))))
           eq_refl).
Defined.

(** A source that holds neither [graph] nor [flowchart] anywhere (a
    sequence diagram, say) gets the line [graph D] put in front of it, [D]
    the new direction; the source itself follows unchanged. *)
Theorem toggleOrientation_prepends_a_header (st : EditorState) :
  onChange st = true ->
  includes (code st) (js "graph") = false ->
  includes (code st) (js "flowchart") = false ->
  code (toggleOrientation st)
  = js "graph "
       ++ dirName (match orientation st with TD => LR | LR => TD end)
       ++ [LF] ++ code st.
Proof.
  intros Hchange Hg Hf. unfold toggleOrientation.
  rewrite Hchange. cbn [negb].
  rewrite code_codeChanged. now apply toggledCode_prepends.
Qed.

Lemma toggleOrientation_prepends_a_header_witness :
  code (toggleOrientation (mounted sequenceTemplate))
  = js "graph " ++ js "LR" ++ [LF] ++ sequenceTemplate.
Proof.
  exact (toggleOrientation_prepends_a_header (mounted sequenceTemplate)
           eq_refl eq_refl eq_refl).
Defined.

(* ================================================================== *)
(** * More on loading elements into the canvas *)
(* ================================================================== *)

Lemma js_inj (a b : string) : js a = js b -> a = b.
Proof.
  unfold js. intros H.
  rewrite <- (string_of_list_ascii_of_string a), <- (string_of_list_ascii_of_string b).
  f_equal. revert H. generalize (list_ascii_of_string a) (list_ascii_of_string b).
  induction l as [|x l IH]; intros [|y l']; cbn; try discriminate; [reflexivity|].
  intros H. injection H as Hxy H. f_equal; [|now apply IH].
  now rewrite <- (ascii_N_embedding x), <- (ascii_N_embedding y), Hxy.
Qed.

Lemma N_toString_inj (n n' : N) : N_toString n = N_toString n' -> n = n'.
Proof.
  unfold N_toString. intros H. apply js_inj in H.
  apply DecimalN.Unsigned.to_uint_inj.
  assert (E : Some (N.to_uint n) = Some (N.to_uint n'))
    by now rewrite <- !NilEmpty.usu, H.
  now injection E.
Qed.

Lemma string_of_uint_digits (d : Decimal.uint) :
  ~ In 45 (js (NilEmpty.string_of_uint d)).
Proof.
  induction d; cbn; [tauto | intros [H|H]; [discriminate H|now apply IHd] ..].
Qed.

Lemma app_sep_inj {A : Type} (x : A) (a a' b b' : list A) :
  ~ In x a -> ~ In x a' -> a ++ x :: b = a' ++ x :: b' -> a = a'.
Proof.
  revert a'. induction a as [|y a IH]; intros [|y' a'] Ha Ha' H; cbn in *.
  - reflexivity.
  - injection H as -> _. exfalso. apply Ha'. now left.
  - injection H as -> _. exfalso. apply Ha. now left.
  - injection H as -> H. f_equal. apply (IH a'); tauto.
Qed.

(** Two generated ids are the same only for the same index, whatever the
    clock reads. *)
Lemma generatedId_inj (now : nat -> N) (i j : nat) :
  generatedId now i = generatedId now j -> i = j.
Proof.
  unfold generatedId, nat_toString. intros H.
  change (js "el-") with [101; 108; 45] in H.
  change (js "-") with [45] in H. cbn [app] in H.
  injection H as H.
  apply app_sep_inj in H; try apply string_of_uint_digits.
  apply N_toString_inj in H. lia.
Qed.

Lemma hasIdAndType_defined (el : value) :
  isNullish el = false -> exists b, hasIdAndType el = Some b.
Proof.
  intros H. unfold hasIdAndType.
  destruct el; try discriminate; cbn;
    try (eexists; reflexivity).
  destruct (truthy _); eexists; reflexivity.
Qed.

Lemma hasIdAndType_nullish (el : value) :
  isNullish el = true -> hasIdAndType el = None.
Proof. destruct el; try discriminate; reflexivity. Qed.

Lemma isAlreadyExcalidraw_defined (elements : list value) :
  Forall (fun el => isNullish el = false) elements ->
  exists b, isAlreadyExcalidraw elements = Some b.
Proof.
  unfold isAlreadyExcalidraw. induction 1 as [|el rest Hel _ IH]; cbn.
  - now exists false.
  - destruct (hasIdAndType_defined el Hel) as [[|] ->]; [now exists true|exact IH].
Qed.

Lemma array_some_app_true (cb : value -> option bool) (pre post : list value) :
  array_some cb pre = Some true -> array_some cb (pre ++ post) = Some true.
Proof.
  induction pre as [|el pre IH]; cbn; [discriminate|].
  destruct (cb el) as [[|]|]; [reflexivity|exact IH|discriminate].
Qed.

Lemma array_some_app_false (cb : value -> option bool) (pre post : list value) :
  Forall (fun el => cb el = Some false) pre ->
  array_some cb (pre ++ post) = array_some cb post.
Proof.
  induction 1 as [|el pre Hel _ IH]; cbn; [reflexivity|]. now rewrite Hel.
Qed.

Lemma lookup_setProp_other (k k' : jsstring) (v : value) (o : object) :
  str_eqb k k' = false -> lookup k (setProp k' v o) = lookup k o.
Proof.
  intros H. induction o as [|[k0 v0] o IH]; cbn.
  - now rewrite H.
  - destruct (str_eqb k' k0) eqn:E; cbn.
    + apply str_eqb_eq in E. subst k0. now rewrite H.
    + now rewrite IH.
Qed.

Lemma truthy_orElse (v d : value) :
  truthy d = true -> truthy (orElse v d) = true.
Proof. intros H. unfold orElse. now destruct (truthy v) eqn:E. Qed.

Section DescriptorFacts.

Variable coerce : value -> float.
Variable now : nat -> N.
Variable isDarkMode : bool.

Lemma mapDescriptor_shape (index : nat) (el : value) (o : object) :
  mapDescriptor coerce now isDarkMode index el = Some (Some o) ->
  lookup (js "id") o = VString (generatedId now index) /\
  isKnownKind (lookup (js "type") o) = true /\
  blackOrUnset o = false.
Proof.
  unfold mapDescriptor.
  destruct (getProp el (js "type")) as [ty|] eqn:E; [|discriminate].
  cbv beta zeta.
  destruct (isString (js "rectangle") ty || isString (js "ellipse") ty) eqn:C1;
    [|destruct (isString (js "arrow") ty) eqn:C2;
      [destruct (minus _ _ _) as [dx|]; [|discriminate];
       destruct (minus _ _ _) as [dy|]; [|discriminate]
      |destruct (isString (js "text") ty) eqn:C3; [|discriminate]]];
    intros H; injection H as <-; (split; [|split]).
  all: try (vm_compute; reflexivity).
  all: try (destruct isDarkMode; vm_compute; reflexivity).
  match goal with
  | |- isKnownKind ?x = true => replace x with ty by (vm_compute; reflexivity)
  end.
  unfold isKnownKind. now rewrite C1.
Qed.

Lemma mapDescriptors_shape (elements : list value) :
  forall (index : nat) (l : list object),
  mapDescriptors coerce now isDarkMode index elements = Some l ->
  (length l <= length elements)%nat /\
  Forall (fun o => exists k, (index <= k)%nat /\
                             lookup (js "id") o = VString (generatedId now k) /\
                             isKnownKind (lookup (js "type") o) = true /\
                             blackOrUnset o = false) l /\
  NoDup (map (lookup (js "id")) l).
Proof.
  induction elements as [|el rest IH]; intros index l; cbn [mapDescriptors].
  - intros H. injection H as <-. repeat split; constructor.
  - destruct (mapDescriptor coerce now isDarkMode index el) as [r|] eqn:E;
      [|discriminate].
    destruct (mapDescriptors coerce now isDarkMode (S index) rest) as [l'|] eqn:E';
      [|discriminate].
    destruct (IH (S index) l' E') as [Hlen [Hall Hnd]].
    assert (Hall' : Forall (fun o => exists k, (index <= k)%nat /\
                             lookup (js "id") o = VString (generatedId now k) /\
                             isKnownKind (lookup (js "type") o) = true /\
                             blackOrUnset o = false) l').
    { eapply Forall_impl; [|exact Hall]. intros o [k [Hk H]].
      exists k. split; [lia|exact H]. }
    intros H. injection H as <-. destruct r as [o|].
    + destruct (mapDescriptor_shape index el o E) as [Hid [Hkind Hstroke]].
      split; [cbn; lia|]. split.
      * constructor; [|exact Hall']. exists index. now repeat split.
      * cbn [map]. constructor; [|exact Hnd]. rewrite Hid.
        intros Hin. apply in_map_iff in Hin. destruct Hin as [o' [Ho' Hin]].
        rewrite Forall_forall in Hall. destruct (Hall o' Hin) as [k [Hk [Hidk _]]].
        rewrite Hidk in Ho'.
        assert (Hg : generatedId now k = generatedId now index) by congruence.
        apply generatedId_inj in Hg. lia.
    + split; [cbn; lia|]. split; assumption.
Qed.

(** On an array that holds no [null] and no [undefined] the effect throws
    in one case only: no item has both an id and a kind, so the items are
    mapped as descriptors, and one of them is an arrow with a coordinate
    that has no primitive value (an object with an own [toString]
    property, say), on which the subtraction throws.  In every other case
    numbers, strings, booleans, nested arrays and objects of any shape are
    read without an error, and the effect ends with a list of final
    elements. *)
Theorem loadElements_throws_only_on_a_bad_arrow (elements : list value) :
  Forall (fun el => isNullish el = false) elements ->
  (isAlreadyExcalidraw elements = Some false /\
   Exists (fun el => throwingArrow el = true) elements ->
   loadElements coerce now isDarkMode true (VArray elements) = TypeError) /\
  (isAlreadyExcalidraw elements = Some true \/
   Forall (fun el => throwingArrow el = false) elements ->
   exists l, loadElements coerce now isDarkMode true (VArray elements)
             = FinalElements l).
Proof.
  intros H. split.
  - intros [Hsome Harrow]. unfold loadElements. cbn [negb truthy orb].
    rewrite Hsome.
    now rewrite (mapDescriptors_throwingArrow coerce now isDarkMode
                   elements 0 Harrow).
  - intros Hok. unfold loadElements. cbn [negb truthy orb].
    destruct (isAlreadyExcalidraw_defined elements H) as [[|] Hsome];
      rewrite Hsome.
    + eexists; reflexivity.
    + destruct Hok as [Hok|Hok]; [congruence|].
      destruct (mapDescriptors_defined coerce now isDarkMode elements 0
                  (isAlreadyExcalidraw_false elements Hsome) Hok) as [l ->].
      now exists l.
Qed.

(** What a [null] or [undefined] item does depends on what stands before
    it.  When no earlier item has both an id and a kind, reading the item's
    [id] throws.  When an earlier item has both, the test has stopped before
    it, the array passes through, and the item is cloned into an empty
    object (which the dark theme then gives a stroke colour). *)
Theorem loadElements_null_item_throws_or_is_cloned
  (pre post : list value) (el : value) :
  isNullish el = true ->
  (Forall (fun x => hasIdAndType x = Some false) pre ->
   loadElements coerce now isDarkMode true (VArray (pre ++ el :: post))
   = TypeError) /\
  (isAlreadyExcalidraw pre = Some true ->
   loadElements coerce now isDarkMode true (VArray (pre ++ el :: post))
   = FinalElements (passThrough isDarkMode (pre ++ el :: post)) /\
   nth_error (passThrough isDarkMode (pre ++ el :: post)) (length pre)
   = Some (if isDarkMode then [(js "strokeColor", lightSlate)] else [])).
Proof.
  intros Hel. split.
  - intros Hpre. unfold loadElements. cbn [negb truthy orb].
    unfold isAlreadyExcalidraw. rewrite (array_some_app_false _ _ _ Hpre).
    cbn [array_some]. now rewrite (hasIdAndType_nullish el Hel).
  - intros Hpre. split.
    + unfold loadElements. cbn [negb truthy orb].
      unfold isAlreadyExcalidraw in *.
      now rewrite (array_some_app_true _ _ _ Hpre).
    + unfold passThrough, colorPatch.
      destruct isDarkMode; rewrite !nth_error_map, nth_error_middle;
        destruct el; try discriminate; reflexivity.
Qed.

(** The descriptors of the generation service come out as elements of the
    four known kinds, never more than there were descriptors, and no two of
    them share an id, even when the clock reads the same for all of them. *)
Theorem mapped_elements_have_known_kinds_and_distinct_ids
  (elements : list value) (l : list object) :
  isAlreadyExcalidraw elements = Some false ->
  loadElements coerce now isDarkMode true (VArray elements) = FinalElements l ->
  (length l <= length elements)%nat /\
  Forall (fun o => isKnownKind (lookup (js "type") o) = true) l /\
  NoDup (map (lookup (js "id")) l).
Proof.
  intros Hsome. unfold loadElements. cbn [negb truthy orb]. rewrite Hsome.
  destruct (mapDescriptors coerce now isDarkMode 0 elements) as [l'|] eqn:E;
    [|discriminate].
  intros H. injection H as <-.
  destruct (mapDescriptors_shape elements 0 l' E) as [Hlen [Hall Hnd]].
  split; [exact Hlen|]. split; [|exact Hnd].
  eapply Forall_impl; [|exact Hall]. now intros o [k [_ [_ [Hk _]]]].
Qed.

(** A rectangle or an ellipse is always mapped; it keeps its kind, takes
    the descriptor's position and size where they are truthy and 0, 0, 100
    and 50 where they are not, so its width and height are never 0, empty
    or missing. *)
Theorem mapDescriptor_box_geometry (index : nat) (o : object) :
  isString (js "rectangle") (lookup (js "type") o) ||
  isString (js "ellipse") (lookup (js "type") o) = true ->
  exists r,
    mapDescriptor coerce now isDarkMode index (VObject o) = Some (Some r) /\
    lookup (js "type") r = lookup (js "type") o /\
    lookup (js "x") r = orElse (lookup (js "x") o) (VNumber 0) /\
    lookup (js "y") r = orElse (lookup (js "y") o) (VNumber 0) /\
    lookup (js "width") r = orElse (lookup (js "width") o) (VNumber 100) /\
    lookup (js "height") r = orElse (lookup (js "height") o) (VNumber 50) /\
    truthy (lookup (js "width") r) = true /\
    truthy (lookup (js "height") r) = true.
Proof.
  intros H. unfold mapDescriptor. cbn [getProp]. cbv beta zeta. rewrite H.
  eexists. split; [reflexivity|].
  repeat split; try (vm_compute; reflexivity).
  - match goal with
    | |- truthy ?x = true =>
        replace x with (orElse (lookup (js "width") o) (VNumber 100))
          by (vm_compute; reflexivity)
    end.
    apply truthy_orElse. vm_compute. reflexivity.
  - match goal with
    | |- truthy ?x = true =>
        replace x with (orElse (lookup (js "height") o) (VNumber 50))
          by (vm_compute; reflexivity)
    end.
    apply truthy_orElse. vm_compute. reflexivity.
Qed.

(** In the dark theme no element that reaches the canvas has a black or
    missing stroke, on either branch of the effect. *)
Theorem dark_canvas_has_no_black_stroke (elements : value) (l : list object) :
  isDarkMode = true ->
  loadElements coerce now isDarkMode true elements = FinalElements l ->
  Forall (fun o => blackOrUnset o = false) l.
Proof.
  intros Hdark. unfold loadElements.
  destruct (negb true || negb (truthy elements)); [discriminate|].
  destruct elements as [| | | | |items|]; try discriminate.
  destruct (isAlreadyExcalidraw items) as [[|]|]; [| |discriminate].
  - intros H. injection H as <-. unfold passThrough, colorPatch.
    rewrite Hdark. apply Forall_forall. intros o Hin.
    apply in_map_iff in Hin. destruct Hin as [o' [<- _]].
    apply blackOrUnset_patchStroke.
  - destruct (mapDescriptors coerce now isDarkMode 0 items) as [l'|] eqn:E;
      [|discriminate].
    intros H. injection H as <-.
    destruct (mapDescriptors_shape items 0 l' E) as [_ [Hall _]].
    eapply Forall_impl; [|exact Hall]. now intros o [k [_ [_ [_ Hk]]]].
Qed.

End DescriptorFacts.

Lemma loadElements_throws_only_on_a_bad_arrow_witness :
  loadElements sampleCoerce sampleClock true true
    (VArray [describedBox; badArrow]) = TypeError /\
  exists l,
    loadElements sampleCoerce sampleClock true true
      (VArray [describedBox; VNumber 1; VString (js "x"); VArray []; convertedBox])
    = FinalElements l.
Proof.
  split.
  - apply (loadElements_throws_only_on_a_bad_arrow sampleCoerce sampleClock true
             [describedBox; badArrow]); [repeat constructor|].
    split; [reflexivity|]. apply Exists_cons_tl, Exists_cons_hd. reflexivity.
  - apply (loadElements_throws_only_on_a_bad_arrow sampleCoerce sampleClock true
             [describedBox; VNumber 1; VString (js "x"); VArray []; convertedBox]);
      [repeat constructor|].
    left. reflexivity.
Defined.

Lemma loadElements_null_item_throws_or_is_cloned_witness :
  (Forall (fun x => hasIdAndType x = Some false) [describedBox] ->
   loadElements sampleCoerce sampleClock true true
     (VArray ([describedBox] ++ VNull :: [convertedBox]))
   = TypeError) /\
  (isAlreadyExcalidraw [convertedBox] = Some true ->
   loadElements sampleCoerce sampleClock true true
     (VArray ([convertedBox] ++ VNull :: [describedBox]))
   = FinalElements (passThrough true ([convertedBox] ++ VNull :: [describedBox])) /\
   nth_error (passThrough true ([convertedBox] ++ VNull :: [describedBox]))
             (length [convertedBox])
   = Some [(js "strokeColor", lightSlate)]).
Proof.
  split.
  - exact (proj1 (loadElements_null_item_throws_or_is_cloned
                    sampleCoerce sampleClock true
                    [describedBox] [convertedBox] VNull eq_refl)).
  - exact (proj2 (loadElements_null_item_throws_or_is_cloned
                    sampleCoerce sampleClock true
                    [convertedBox] [describedBox] VNull eq_refl)).
Defined.

Lemma mapped_elements_have_known_kinds_and_distinct_ids_witness :
  (length describedScene <= 3)%nat /\
  Forall (fun o => isKnownKind (lookup (js "type") o) = true) describedScene /\
  NoDup (map (lookup (js "id")) describedScene).
Proof.
  exact (mapped_elements_have_known_kinds_and_distinct_ids
           sampleCoerce sampleClock true
           [describedBox; describedNote; describedBox] describedScene
           eq_refl eq_refl).
Defined.

Lemma mapDescriptor_box_geometry_witness :
  exists r,
    mapDescriptor sampleCoerce sampleClock true 0 describedBox = Some (Some r) /\
    lookup (js "type") r = VString (js "rectangle") /\
    lookup (js "x") r = VNumber 0 /\
    lookup (js "y") r = VNumber 0 /\
    lookup (js "width") r = VNumber 100 /\
    lookup (js "height") r = VNumber 50 /\
    truthy (lookup (js "width") r) = true /\
    truthy (lookup (js "height") r) = true.
Proof.
  exact (mapDescriptor_box_geometry sampleCoerce sampleClock true 0
           [ (js "type", VString (js "rectangle")); (js "label", VString (js "B")) ]
           eq_refl).
Defined.

Lemma dark_canvas_has_no_black_stroke_witness :
  Forall (fun o => blackOrUnset o = false)
         (passThrough true [convertedBox; describedBox]).
Proof.
  exact (dark_canvas_has_no_black_stroke sampleCoerce sampleClock true
           (VArray [convertedBox; describedBox])
           (passThrough true [convertedBox; describedBox])
           eq_refl eq_refl).
Defined.

(** The pass-through branch keeps the number and the order of the elements
    and, of every element, every property but the stroke colour, in either
    theme. *)
Theorem passThrough_changes_only_the_stroke (isDarkMode : bool)
  (elements : list value) :
  length (passThrough isDarkMode elements) = length elements /\
  (forall i el, nth_error elements i = Some el ->
     exists o, nth_error (passThrough isDarkMode elements) i = Some o /\
               forall k, k <> js "strokeColor" ->
                         lookup k o = lookup k (spread el)).
Proof.
  unfold passThrough, colorPatch. split.
  - destruct isDarkMode; now rewrite ?length_map.
  - intros i el Hi. destruct isDarkMode.
    + exists (patchStroke (spread el)). split.
      * now rewrite !nth_error_map, Hi.
      * intros k Hk. unfold patchStroke.
        destruct (blackOrUnset (spread el)); [|reflexivity].
        apply lookup_setProp_other. now apply str_eqb_neq.
    + exists (spread el). split; [now rewrite nth_error_map, Hi|reflexivity].
Qed.

(** An answer that parses to something other than an array is stored
    with no alert about its shape (an alert is shown only when the write
    to local storage is refused), and the canvas effect that then reads
    it throws when the value is truthy (an object, a number, a string) and
    does nothing when it is falsy. *)
Theorem non_array_answer_is_stored_and_breaks_the_canvas
  (coerce : value -> float) (now : nat -> N) (isDarkMode : bool)
  (seen : AppState) (prompt response : jsstring) (v : value) (clock : N * N)
  (setItem : completion) (st : AppState) :
  activeTab seen = EXCALIDRAW ->
  (forall items, v <> VArray items) ->
  let st' :=
    handleGenerate seen prompt (Fulfilled response) (Some v) clock setItem st in
  alerts st'
  = match setItem with
    | Returns => alerts st
    | Throws =>
        alerts st ++ [js "AI generated invalid data structure. Please try again."]
    end /\
  excalidrawElements (diagramState st') = v /\
  loadElements coerce now isDarkMode true (excalidrawElements (diagramState st'))
  = if truthy v then TypeError else NothingToDo.
Proof.
  intros Htab Harr st'.
  assert (Hv : excalidrawElements (diagramState st') = v)
    by (unfold st', handleGenerate; rewrite Htab; now destruct setItem).
  split; [|split; [exact Hv|]].
  - unfold st', handleGenerate. rewrite Htab. now destruct setItem.
  - rewrite Hv. unfold loadElements. cbn [negb orb].
    destruct v as [| | | | |items|]; try reflexivity;
      try (now destruct (truthy _)).
    now elim (Harr items).
Qed.

Lemma non_array_answer_is_stored_and_breaks_the_canvas_witness :
  let st' := handleGenerate excalidrawApp (js "two boxes")
               (Fulfilled (js "{}")) (Some (VObject []))
               (1700000000000, 1700000000001) Returns
               (handleGenerate_begin excalidrawApp) in
  alerts st' = [] /\
  excalidrawElements (diagramState st') = VObject [] /\
  loadElements sampleCoerce sampleClock true true
    (excalidrawElements (diagramState st'))
  = TypeError.
Proof.
  apply (non_array_answer_is_stored_and_breaks_the_canvas
           sampleCoerce sampleClock true excalidrawApp (js "two boxes")
           (js "{}") (VObject []) (1700000000000, 1700000000001) Returns
           (handleGenerate_begin excalidrawApp) eq_refl).
  intros items. discriminate.
Defined.

(* ================================================================== *)
(** * The generation service *)
(* ================================================================== *)

Ltac fence_none :=
  unfold fence; cbn [stripPrefix];
  repeat match goal with
         | |- context [N.eqb ?x ?y] =>
             destruct (N.eqb_spec x y); try congruence
         end; reflexivity.

Ltac not_tick p := repeat (destruct p as [p|p|]; try reflexivity).

Lemma fence_cases (s : jsstring) :
  (exists t, s = 96 :: 96 :: 96 :: t) \/
  (stripPrefix fence s = None /\
   match s with [] => True | c :: t => stripFences s = c :: stripFences t end).
Proof.
  destruct s as [|a [|b [|c t]]].
  - right. split; reflexivity.
  - right. split; [fence_none|].
    destruct a as [|p]; [reflexivity|]. not_tick p.
  - right. split; [fence_none|].
    destruct a as [|p]; [reflexivity|]. not_tick p.
    destruct b as [|q]; [reflexivity|]. not_tick q.
  - destruct (N.eqb_spec 96 a) as [<-|Ha];
      [destruct (N.eqb_spec 96 b) as [<-|Hb];
       [destruct (N.eqb_spec 96 c) as [<-|Hc]|]|].
    + left. now exists t.
    + right. split; [fence_none|].
      destruct c as [|p]; [reflexivity|]. not_tick p. now elim Hc.
    + right. split; [fence_none|].
      destruct b as [|p]; [reflexivity|]. not_tick p. now elim Hb.
    + right. split; [fence_none|].
      destruct a as [|p]; [reflexivity|]. not_tick p. now elim Ha.
Qed.

(** The global replace of the fence by the empty string, as a function on
    the text. *)
Lemma replace_fence (n : nat) :
  forall s before, (length s <= n)%nat ->
  replaceFrom false (Lit fence) [] before s 0 = stripFences s.
Proof.
  induction n as [|n IH]; intros s before Hlen.
  - destruct s; [reflexivity|cbn in Hlen; lia].
  - destruct (fence_cases s) as [[t ->]|[Hnone Hstep]].
    + cbn [replaceFrom].
      assert (Hm : matchAt false (Lit fence) before (96 :: 96 :: 96 :: t)
                   = Some (Found (rev before) fence t [])) by reflexivity.
      rewrite Hm. cbn [matched fence length expand ngroups app replaceFrom stripFences].
      apply IH. cbn in Hlen. lia.
    + destruct s as [|c t]; [reflexivity|].
      cbn [replaceFrom]. unfold matchAt. cbn [m rest]. rewrite Hnone, Hstep.
      f_equal. apply IH. cbn in Hlen. lia.
Qed.

Lemma ticks2_cons (c : N) (r : jsstring) :
  ticks2 (c :: r) = (96 =? c) && tick1 r.
Proof. destruct r; cbn; [now rewrite andb_false_r|reflexivity]. Qed.

Lemma fence_prefix_none (c : N) (r : jsstring) :
  (96 =? c) = false \/ ticks2 r = false -> stripPrefix fence (c :: r) = None.
Proof.
  intros H. unfold fence. cbn [stripPrefix].
  destruct (96 =? c); [|reflexivity].
  destruct H as [H|H]; [discriminate|].
  destruct r as [|a [|b r]]; cbn [stripPrefix ticks2] in *;
    try reflexivity; try (now destruct (96 =? a)).
  destruct (96 =? a); [|reflexivity]. now destruct (96 =? b).
Qed.

Lemma fence_prefix_ticks (c : N) (t : jsstring) :
  stripPrefix fence (c :: t) = None -> (96 =? c) = true -> ticks2 t = false.
Proof.
  unfold fence. cbn [stripPrefix]. intros H Hc. rewrite Hc in H.
  destruct t as [|a [|b r]]; cbn [stripPrefix ticks2] in *; try reflexivity.
  destruct (96 =? a); [|reflexivity]. now destruct (96 =? b).
Qed.

(** What is left after the fences are taken out holds no fence: the
    backticks that remain at a cut are too few to make one with what
    follows. *)
Lemma stripFences_clean (n : nat) :
  forall s, (length s <= n)%nat ->
  includes (stripFences s) fence = false /\
  (tick1 s = false -> tick1 (stripFences s) = false) /\
  (ticks2 s = false -> ticks2 (stripFences s) = false).
Proof.
  induction n as [|n IH]; intros s Hlen.
  - destruct s; [repeat split|cbn in Hlen; lia].
  - destruct (fence_cases s) as [[t ->]|[Hnone Hstep]].
    + cbn [stripFences]. destruct (IH t) as [H1 _]; [cbn in Hlen; lia|].
      repeat split; [exact H1|discriminate|discriminate].
    + destruct s as [|c t]; [repeat split|].
      rewrite Hstep. destruct (IH t) as [H1 [H2 H3]]; [cbn in Hlen; lia|].
      assert (Hticks : (96 =? c) = true -> ticks2 (stripFences t) = false).
      { intros Hc. apply H3. exact (fence_prefix_ticks c t Hnone Hc). }
      split; [|split].
      * rewrite includes_unfold, fence_prefix_none; [exact H1|].
        destruct (96 =? c); [right; now apply Hticks|now left].
      * intros H. exact H.
      * rewrite !ticks2_cons. intros H.
        destruct (96 =? c); [|reflexivity]. cbn [andb] in *. now apply H2.
Qed.

Lemma dropWhile_suffix (p : N -> bool) (s : jsstring) :
  exists a, s = a ++ dropWhile p s.
Proof.
  induction s as [|c s [a IH]]; [now exists []|]. cbn.
  destruct (p c); [|now exists []].
  exists (c :: a). cbn. now rewrite <- IH.
Qed.

Lemma trim_infix (s : jsstring) : exists a b, s = a ++ trim s ++ b.
Proof.
  unfold trim. destruct (dropWhile_suffix isWhiteSpace s) as [a Ha].
  destruct (dropWhile_suffix isWhiteSpace (rev (dropWhile isWhiteSpace s)))
    as [b Hb].
  exists a, (rev b). rewrite <- rev_app_distr, <- Hb, rev_involutive. exact Ha.
Qed.

Lemma includes_trim (s q : jsstring) :
  includes s q = false -> includes (trim s) q = false.
Proof.
  intros H. destruct (includes (trim s) q) eqn:E; [|reflexivity].
  destruct (includes_split _ _ E) as [x [y Hxy]].
  destruct (trim_infix s) as [a [b Hab]].
  rewrite Hxy in Hab.
  assert (Hs : s = (a ++ x) ++ q ++ (y ++ b)).
  { rewrite Hab. repeat (rewrite <- app_assoc; cbn [app]). reflexivity. }
  rewrite Hs, includes_app in H. discriminate.
Qed.

(** Whatever text the model answers, and also when it answers none, the
    Mermaid code that the service returns holds no code fence: every run of
    three backticks is gone, also one that only forms when a
    [```mermaid] is taken out between backticks. *)
Theorem generateMermaid_leaves_no_fence (text : option jsstring) :
  includes (generateMermaid text) (js "```") = false /\
  exists code,
    generateDiagramCode MERMAID (Fulfilled text) = Fulfilled code /\
    includes code (js "```") = false.
Proof.
  assert (H : includes (generateMermaid text) (js "```") = false).
  { unfold generateMermaid, replaceAll. apply includes_trim.
    change (js "```") with fence.
    rewrite (replace_fence _ _ _ (le_n _)).
    apply (stripFences_clean _ _ (le_n _)). }
  split; [exact H|]. exists (generateMermaid text). split; [reflexivity|exact H].
Qed.
